(** * Adaptive playback replay engine (youtube_traces/simulation/replayer_2.py)

    A shallow embedding of the client side of the replay engine: the
    buffer-aware bandwidth estimator, the ABR decision, the playback clock,
    the per-stream download worker and the metrics aggregator, together
    with the properties of the specification that concern them.

    Numeric model.  Python floats are represented by exact rationals [Q]
    (no rounding, no NaN, no infinities); Python ints by [Z].  The clamps
    and sign arguments of the engine do not depend on rounding.  Three
    computations do, and are therefore embedded a second time on binary64
    numbers (module [F64]): the fairness index, in its last bits; the
    ladder selection of [get_abr_decision], whose target is a rounded
    product; and the chunk size [int((duration * bitrate * 1e6) / 8)],
    which truncates a rounded quotient and raises on an infinite one.  The
    time readings of [time.time()] and the bytes delivered by the peer are
    inputs of the step functions.  Every [with state["lock"]] block is one
    atomic step on the shared [State]. *)

From Stdlib Require Uint63 SpecFloat FloatOps FloatAxioms.
From Stdlib Require Import PrimFloat.
From Stdlib Require Import QArith Qminmax Lqa Lia ZArith Ascii String Sorted.
From stdpp Require Import gmap strings list fin_maps.

Local Open Scope Q_scope.

(** ** Python numerics on [Q] *)

Module Py.

(** [x < y] on floats, as a boolean. *)
Definition ltb (x y : Q) : bool := negb (Qle_bool y x).

(** [x >= y]. *)
Definition geb (x y : Q) : bool := Qle_bool y x.

(** [min(a, b)]: the first argument unless the second is strictly smaller. *)
Definition min2 (a b : Q) : Q := if ltb b a then b else a.

(** [max(a, b)]: the first argument unless the second is strictly larger. *)
Definition max2 (a b : Q) : Q := if ltb a b then b else a.

(** [min(l)] for a list with first element [x] and rest [l]. *)
Definition min_from (x : Q) (l : list Q) : Q :=
  fold_left (fun acc y => if ltb y acc then y else acc) l x.

(** [int(x)]: truncation toward zero. *)
Definition int (x : Q) : Z := Z.quot (Qnum x) (Z.pos (Qden x)).

(** [float(n)] for an int, implicit in mixed arithmetic. *)
Definition float (n : Z) : Q := inject_Z n.

(** [sum(l)] on floats. *)
Definition sum (l : list Q) : Q := fold_left Qplus l 0.

End Py.

(** ** Configuration constants *)

Definition CHUNK_SIZE : Z := 4096.
Definition BITRATE_LADDER : list (Q * string) :=
  [(0.5, "240p"%string); (1.0, "360p"%string); (2.5, "720p"%string);
   (5.0, "1080p"%string); (8.0, "1440p"%string)].

Definition PREFETCH_TARGET : Q := 5.0.
Definition PANIC_THRESHOLD : Q := 5.0.
Definition MAX_BUFFER_ACTIVE : Q := 20.0.
Definition TP_WINDOW_LEN : nat := 10.

(** ** The shared simulation state

    The dictionary [state] built in [run_client].  [buffers] and
    [per_stream_bytes] are [defaultdict]s: a missing key reads as zero.
    Reading [buffers] through a missing key also stores the zero; since
    [buffers] is never iterated this is not observable, and it is read here
    through [buffer_of] without the store.  [active_video_index] starts at
    0 and is only ever incremented, so it is a [nat]. *)

Record State := mkState {
  start_time : Q;
  total_bytes : Z;
  buffers : gmap string Q;
  stall_time : Q;
  active_video_index : nat;
  active_base_id : string;
  stream_order : list string;
  swipe_map : gmap string Q;
  throughputs : list Q;
  throughput_timeseries : list (Q * Q);
  buffer_timeseries : list (Q * Q);
  bitrate_timeseries : list (Q * Q);
  app_bandwidth_est : Q;
  tp_window : list Q;
  last_stall_time : Q;
  per_stream_bytes : gmap string Z;
  per_stream_first_ts : gmap string Q;
  per_stream_last_ts : gmap string Q
}.

(** [state["buffers"][k]]. *)
Definition buffer_of (st : State) (k : string) : Q :=
  default 0 (buffers st !! k).

(** The state of [run_client] before any thread runs. *)
Definition initial_state (now : Q) (order : list string)
    (swipes : gmap string Q) : State :=
  {| start_time := now;
     total_bytes := 0%Z;
     buffers := ∅;
     stall_time := 0.0;
     active_video_index := 0%nat;
     active_base_id := match order with s :: _ => s | [] => "0"%string end;
     stream_order := order;
     swipe_map := swipes;
     throughputs := [];
     throughput_timeseries := [];
     buffer_timeseries := [];
     bitrate_timeseries := [];
     app_bandwidth_est := 2.5;
     tp_window := [];
     last_stall_time := 0.0;
     per_stream_bytes := ∅;
     per_stream_first_ts := ∅;
     per_stream_last_ts := ∅ |}.

(** ** Bandwidth estimator: [update_bandwidth_estimate] *)

(** Step 1: [tp_window.append(tp); if len(tp_window) > TP_WINDOW_LEN: tp_window.pop(0)]. *)
Definition push_window (w : list Q) (tp : Q) : list Q :=
  let w1 := w ++ [tp] in
  if (TP_WINDOW_LEN <? length w1)%nat then tail w1 else w1.

(** [min(tp_window) if tp_window else tp_mbps]. *)
Definition safe_floor_of (w : list Q) (tp : Q) : Q :=
  match w with
  | [] => tp
  | x :: l => Py.min_from x l
  end.

(** Step 2: the EWMA factor chosen from the active buffer. *)
Definition ewma_alpha (buf_active : Q) : Q :=
  if Py.ltb buf_active 3.0 then 0.10
  else if Py.ltb buf_active 10.0 then 0.20
  else 0.30.

(** Step 4: the buffer risk factor. *)
Definition risk_factor_of (buf_active : Q) : Q :=
  if Py.ltb buf_active 2.0 then 0.7
  else if Py.ltb buf_active 5.0 then 0.85
  else if Py.ltb buf_active 12.0 then 1.0
  else 1.1.

Definition update_bandwidth_estimate (st : State) (tp_mbps : Q) : State :=
  let active_id := active_base_id st in
  let buf_active := buffer_of st active_id in
  let tp_window' := push_window (tp_window st) tp_mbps in
  let safe_floor := safe_floor_of tp_window' tp_mbps in
  let alpha := ewma_alpha buf_active in
  let current_est := app_bandwidth_est st in
  let ewma_est := (1 - alpha) * current_est + alpha * tp_mbps in
  let blended_est := 0.5 * ewma_est + 0.5 * safe_floor in
  let risk_factor := risk_factor_of buf_active in
  let buffer_aware_est := blended_est * risk_factor in
  let stalled := Py.ltb (last_stall_time st) (stall_time st) in
  let buffer_aware_est1 :=
    if stalled then Py.min2 buffer_aware_est (tp_mbps * 0.8)
    else buffer_aware_est in
  let last_stall_time' :=
    if stalled then stall_time st else last_stall_time st in
  let buffer_aware_est2 := Py.max2 0.1 (Py.min2 buffer_aware_est1 100.0) in
  {| start_time := start_time st;
     total_bytes := total_bytes st;
     buffers := buffers st;
     stall_time := stall_time st;
     active_video_index := active_video_index st;
     active_base_id := active_base_id st;
     stream_order := stream_order st;
     swipe_map := swipe_map st;
     throughputs := throughputs st;
     throughput_timeseries := throughput_timeseries st;
     buffer_timeseries := buffer_timeseries st;
     bitrate_timeseries := bitrate_timeseries st;
     app_bandwidth_est := buffer_aware_est2;
     tp_window := tp_window';
     last_stall_time := last_stall_time';
     per_stream_bytes := per_stream_bytes st;
     per_stream_first_ts := per_stream_first_ts st;
     per_stream_last_ts := per_stream_last_ts st |}.

(** The estimator as the specification words it. *)
Module EstimatorSpec.

Definition alpha (buf : Q) : Q :=
  if Qlt_le_dec buf 3 then 0.10
  else if Qlt_le_dec buf 10 then 0.20 else 0.30.

Definition risk (buf : Q) : Q :=
  if Qlt_le_dec buf 2 then 0.7
  else if Qlt_le_dec buf 5 then 0.85
  else if Qlt_le_dec buf 12 then 1.0 else 1.1.

Definition clamp (x lo hi : Q) : Q := Qmax lo (Qmin x hi).

(** Minimum of a window; a window is never empty once a sample is pushed. *)
Definition window_min (w : list Q) : Q :=
  match w with
  | [] => 0
  | x :: l => fold_right Qmin x l
  end.

(** [prev_stall] is the stall time at the previous update, [stall] the
    current one. *)
Definition estimate (prev tp buf : Q) (w' : list Q) (prev_stall stall : Q) : Q :=
  let v := risk buf * (0.5 * ((1 - alpha buf) * prev + alpha buf * tp)
                       + 0.5 * window_min w') in
  let v1 := if Qlt_le_dec prev_stall stall then Qmin v (0.8 * tp) else v in
  clamp v1 0.1 100.

End EstimatorSpec.

(** ** ABR decision: [get_abr_decision] *)

(** [BITRATE_LADDER[0][0]]. *)
Definition lowest_rung : Q :=
  match BITRATE_LADDER with
  | (b, _) :: _ => b
  | [] => 0
  end.

(** The selection loop: walk the ladder upward, keep the last rung that
    fits under [target], stop at the first one that does not. *)
Fixpoint select_rung (ladder : list (Q * string)) (target selected : Q) : Q :=
  match ladder with
  | [] => selected
  | (b, _) :: rest =>
      if Qle_bool b target then select_rung rest target b else selected
  end.

(** The decision in exact arithmetic.  Its targets are the exact products;
    the decision on the rounded products of the code is
    [F64.get_abr_decision], which can sit one rung higher where a product
    rounds up onto a rung. *)
Definition get_abr_decision (st : State) (is_active : bool) (base_id : string) : Q :=
  let est := app_bandwidth_est st in
  let buf := buffer_of st base_id in
  if is_active then
    let target := if Py.ltb buf 5.0 then est * 0.5 else est * 0.9 in
    select_rung BITRATE_LADDER target lowest_rung
  else
    let active_id := active_base_id st in
    if Py.ltb (buffer_of st active_id) PANIC_THRESHOLD then lowest_rung
    else select_rung BITRATE_LADDER (est * 0.5) lowest_rung.

(** ** Playback clock: one iteration of the loop of [playback_simulation] *)

Definition set_active (st : State) (idx : nat) (sid : string) : State :=
  {| start_time := start_time st;
     total_bytes := total_bytes st;
     buffers := buffers st;
     stall_time := stall_time st;
     active_video_index := idx;
     active_base_id := sid;
     stream_order := stream_order st;
     swipe_map := swipe_map st;
     throughputs := throughputs st;
     throughput_timeseries := throughput_timeseries st;
     buffer_timeseries := buffer_timeseries st;
     bitrate_timeseries := bitrate_timeseries st;
     app_bandwidth_est := app_bandwidth_est st;
     tp_window := tp_window st;
     last_stall_time := last_stall_time st;
     per_stream_bytes := per_stream_bytes st;
     per_stream_first_ts := per_stream_first_ts st;
     per_stream_last_ts := per_stream_last_ts st |}.

Definition set_buffer (st : State) (k : string) (v : Q) : State :=
  {| start_time := start_time st;
     total_bytes := total_bytes st;
     buffers := <[k := v]> (buffers st);
     stall_time := stall_time st;
     active_video_index := active_video_index st;
     active_base_id := active_base_id st;
     stream_order := stream_order st;
     swipe_map := swipe_map st;
     throughputs := throughputs st;
     throughput_timeseries := throughput_timeseries st;
     buffer_timeseries := buffer_timeseries st;
     bitrate_timeseries := bitrate_timeseries st;
     app_bandwidth_est := app_bandwidth_est st;
     tp_window := tp_window st;
     last_stall_time := last_stall_time st;
     per_stream_bytes := per_stream_bytes st;
     per_stream_first_ts := per_stream_first_ts st;
     per_stream_last_ts := per_stream_last_ts st |}.

Definition set_stall_time (st : State) (v : Q) : State :=
  {| start_time := start_time st;
     total_bytes := total_bytes st;
     buffers := buffers st;
     stall_time := v;
     active_video_index := active_video_index st;
     active_base_id := active_base_id st;
     stream_order := stream_order st;
     swipe_map := swipe_map st;
     throughputs := throughputs st;
     throughput_timeseries := throughput_timeseries st;
     buffer_timeseries := buffer_timeseries st;
     bitrate_timeseries := bitrate_timeseries st;
     app_bandwidth_est := app_bandwidth_est st;
     tp_window := tp_window st;
     last_stall_time := last_stall_time st;
     per_stream_bytes := per_stream_bytes st;
     per_stream_first_ts := per_stream_first_ts st;
     per_stream_last_ts := per_stream_last_ts st |}.

Definition log_buffer (st : State) (sample : Q * Q) : State :=
  {| start_time := start_time st;
     total_bytes := total_bytes st;
     buffers := buffers st;
     stall_time := stall_time st;
     active_video_index := active_video_index st;
     active_base_id := active_base_id st;
     stream_order := stream_order st;
     swipe_map := swipe_map st;
     throughputs := throughputs st;
     throughput_timeseries := throughput_timeseries st;
     buffer_timeseries := buffer_timeseries st ++ [sample];
     bitrate_timeseries := bitrate_timeseries st;
     app_bandwidth_est := app_bandwidth_est st;
     tp_window := tp_window st;
     last_stall_time := last_stall_time st;
     per_stream_bytes := per_stream_bytes st;
     per_stream_first_ts := per_stream_first_ts st;
     per_stream_last_ts := per_stream_last_ts st |}.

(** The swipe check: advance to the next stream once its start time is reached. *)
Definition advance_active (sim_time : Q) (st : State) : State :=
  let idx := active_video_index st in
  if (idx + 1 <? length (stream_order st))%nat then
    match stream_order st !! (idx + 1)%nat with
    | Some next_sid =>
        let start_time_real := default 99999 (swipe_map st !! next_sid) in
        if Py.geb sim_time start_time_real
        then set_active st (idx + 1)%nat next_sid
        else st
    | None => st
    end
  else st.

(** Drain the active buffer, or account a stall. *)
Definition drain_or_stall (delta : Q) (st : State) : State :=
  let active_id := active_base_id st in
  if Py.ltb 0 (buffer_of st active_id)
  then set_buffer st active_id (Py.max2 0.0 (buffer_of st active_id - delta))
  else set_stall_time st (stall_time st + delta).

(** The locked block of one tick, for the readings [delta] and [sim_time]. *)
Definition tick_locked (delta sim_time : Q) (st : State) : State :=
  let st1 := advance_active sim_time st in
  let st2 := drain_or_stall delta st1 in
  log_buffer st2 (sim_time, buffer_of st2 (active_base_id st2)).

(** One loop iteration: [now] is the reading of [time.time()] after the
    sleep; the result carries the new [last_real_time]. *)
Definition playback_tick (now last_real_time : Q) (st : State) : Q * State :=
  let delta := now - last_real_time in
  let sim_time := now - start_time st in
  (now, tick_locked delta sim_time st).

(** ** Stream download worker: [handle_stream_logic] *)

(** An entry of a stream's ["events"]. *)
Record Event := mkEvent {
  action : string;
  video_duration_sec : Q;
  is_background : bool
}.

(** [full_sid.split('_')[0]]. *)
Fixpoint base_id_of (full_sid : string) : string :=
  match full_sid with
  | EmptyString => EmptyString
  | String c rest =>
      if Ascii.eqb c "_"%char then EmptyString else String c (base_id_of rest)
  end.

(** [l.index(x)], [None] standing for the [ValueError]. *)
Fixpoint list_index (x : string) (l : list string) : option nat :=
  match l with
  | [] => None
  | y :: rest =>
      if String.eqb y x then Some 0%nat else option_map S (list_index x rest)
  end.

(** [my_idx]: the position in [stream_order], or [-1]. *)
Definition my_idx_of (base_id : string) (st : State) : Z :=
  match list_index base_id (stream_order st) with
  | Some i => Z.of_nat i
  | None => (-1)%Z
  end.

(** [chunks = [ev for ev in events if ev["action"] == "download"]]. *)
Definition download_chunks (events : list Event) : list Event :=
  List.filter (fun ev => String.eqb (action ev) "download") events.

(** Outcome of one pass through the gating loop. *)
Inductive GateResult :=
| GateReturn   (* [return]: the worker ends *)
| GateBreak    (* [break]: go on to the ABR decision and the transfer *)
| GateSleep.   (* [time.sleep(0.1)] and check again *)

Definition gate_check (my_idx : Z) (base_id : string) (chunk : Event)
    (st : State) : GateResult :=
  let active_idx := Z.of_nat (active_video_index st) in
  let curr_buf := buffer_of st base_id in
  let is_active := (my_idx =? active_idx)%Z in
  if (my_idx <? active_idx)%Z then GateReturn
  else if is_active then
    if Py.ltb curr_buf MAX_BUFFER_ACTIVE then GateBreak else GateSleep
  else if (my_idx =? active_idx + 1)%Z then
    if is_background chunk then
      if Py.ltb curr_buf PREFETCH_TARGET then GateBreak else GateSleep
    else GateSleep
  else GateSleep.

(** [size_bytes = int((duration * bitrate * 1e6) / 8)], in exact
    arithmetic.  The value computed on doubles, [F64.size_bytes_of], can be
    one less where the rounded quotient falls just below an integer, and
    is undefined where the product overflows. *)
Definition size_bytes_of (duration bitrate : Q) : Z :=
  Py.int ((duration * bitrate * 1e6) / 8).

(** The body of [if recvd > 0:] in the update block.  The four clock
    readings are the four calls of [time.time()] in that block. *)
Definition record_transfer (full_sid base_id : string) (duration bitrate : Q)
    (size_bytes recvd : Z) (tp_mbps : Q) (t_sim t_series t_first t_last : Q)
    (st : State) : State :=
  let sim_time := t_sim - start_time st in
  let frac := Py.float recvd / Py.float (Z.max 1 size_bytes) in
  let st1 :=
    {| start_time := start_time st;
       total_bytes := (total_bytes st + recvd)%Z;
       buffers := <[base_id := buffer_of st base_id + duration * frac]> (buffers st);
       stall_time := stall_time st;
       active_video_index := active_video_index st;
       active_base_id := active_base_id st;
       stream_order := stream_order st;
       swipe_map := swipe_map st;
       throughputs := throughputs st ++ [tp_mbps];
       throughput_timeseries := throughput_timeseries st ++ [(t_series, tp_mbps)];
       buffer_timeseries := buffer_timeseries st;
       bitrate_timeseries := bitrate_timeseries st ++ [(sim_time, bitrate)];
       app_bandwidth_est := app_bandwidth_est st;
       tp_window := tp_window st;
       last_stall_time := last_stall_time st;
       per_stream_bytes :=
         <[full_sid := (default 0 (per_stream_bytes st !! full_sid) + recvd)%Z]>
           (per_stream_bytes st);
       per_stream_first_ts :=
         match per_stream_first_ts st !! full_sid with
         | Some _ => per_stream_first_ts st
         | None => <[full_sid := t_first]> (per_stream_first_ts st)
         end;
       per_stream_last_ts := <[full_sid := t_last]> (per_stream_last_ts st) |} in
  update_bandwidth_estimate st1 tp_mbps.

(** Step 4 of the loop body, [elapsed] being [time.time() - t0]. *)
Definition update_state (full_sid base_id : string) (duration bitrate : Q)
    (size_bytes recvd : Z) (elapsed t_sim t_series t_first t_last : Q)
    (st : State) : State :=
  let dt := Py.max2 1e-6 elapsed in
  let tp_mbps := Py.float (recvd * 8) / (dt * 1e6) in
  if (0 <? recvd)%Z
  then record_transfer full_sid base_id duration bitrate size_bytes recvd
         tp_mbps t_sim t_series t_first t_last st
  else st.

(** *** The worker as a step machine

    The worker shares [state] with the clock and with the other workers, so
    it is run one lock-protected block (or one socket call) at a time. *)

(** Where a worker stands in the body of [for chunk in chunks], the head of
    its chunk list being the current chunk. *)
Inductive Phase :=
| PGate                                          (* in the gating loop *)
| PDecide                                        (* past the gate, before the ABR block *)
| PRecv (bitrate : Q) (size_bytes recvd : Z)     (* at the test of the receive loop *)
| PUpdate (bitrate : Q) (size_bytes recvd : Z)   (* transfer over, before the update block *)
| PDone.                                         (* returned *)

Record Worker := mkWorker {
  w_full_sid : string;
  w_my_idx : Z;
  w_chunks : list Event;
  w_phase : Phase
}.

(** What [s.recv(CHUNK_SIZE)] meets: [n] bytes ready to be read (of which it
    returns at most [CHUNK_SIZE]), an empty read, or an exception. *)
Inductive NetEvent :=
| NetData (n : positive)
| NetClosed
| NetError.

(** What the environment supplies to one step of a worker. *)
Record Env := mkEnv {
  env_connect_ok : bool;   (* [connect] and [sendall] succeed *)
  env_recv : NetEvent;     (* outcome of the next [recv] *)
  env_elapsed : Q;         (* [time.time() - t0] *)
  env_t_sim : Q;           (* the readings of [time.time()] in the update block *)
  env_t_series : Q;
  env_t_first : Q;
  env_t_last : Q
}.

(** What a worker does on its socket and on standard output.  The worker
    has no [print] or logging call, so [ActLog] is never emitted. *)
Inductive Action :=
| ActSend (size_bytes : Z)   (* the request line [f"{size_bytes}\n"] *)
| ActClose                   (* [s.close()] *)
| ActLog (msg : string).

(** The phase at the top of the [for] loop. *)
Definition loop_head (chunks : list Event) : Phase :=
  match chunks with
  | [] => PDone
  | _ :: _ => PGate
  end.

(** The worker at the start of [handle_stream_logic]. *)
Definition spawn_worker (events : list Event) (full_sid : string) (st : State) : Worker :=
  let chunks := download_chunks events in
  {| w_full_sid := full_sid;
     w_my_idx := my_idx_of (base_id_of full_sid) st;
     w_chunks := chunks;
     w_phase := loop_head chunks |}.

Definition with_phase (w : Worker) (p : Phase) : Worker :=
  {| w_full_sid := w_full_sid w; w_my_idx := w_my_idx w;
     w_chunks := w_chunks w; w_phase := p |}.

(** The worker after [return]. *)
Definition returned (w : Worker) : Worker :=
  {| w_full_sid := w_full_sid w; w_my_idx := w_my_idx w;
     w_chunks := []; w_phase := PDone |}.

(** The worker moving on to its next chunk. *)
Definition next_chunk (w : Worker) : Worker :=
  {| w_full_sid := w_full_sid w; w_my_idx := w_my_idx w;
     w_chunks := tail (w_chunks w); w_phase := loop_head (tail (w_chunks w)) |}.

Definition worker_step (env : Env) (st : State) (w : Worker)
    : State * Worker * list Action :=
  let base_id := base_id_of (w_full_sid w) in
  match w_chunks w with
  | [] => (st, returned w, [])
  | chunk :: _ =>
      match w_phase w with
      | PDone => (st, w, [])
      | PGate =>
          match gate_check (w_my_idx w) base_id chunk st with
          | GateReturn => (st, returned w, [])
          | GateBreak => (st, with_phase w PDecide, [])
          | GateSleep => (st, w, [])
          end
      | PDecide =>
          let is_active := (w_my_idx w =? Z.of_nat (active_video_index st))%Z in
          let bitrate := get_abr_decision st is_active base_id in
          let duration := video_duration_sec chunk in
          let size_bytes := size_bytes_of duration bitrate in
          if env_connect_ok env
          then (st, with_phase w (PRecv bitrate size_bytes 0), [ActSend size_bytes])
          else (st, with_phase w (PUpdate bitrate size_bytes 0), [ActClose])
      | PRecv bitrate size_bytes recvd =>
          if (recvd <? size_bytes)%Z then
            if (w_my_idx w <? Z.of_nat (active_video_index st))%Z
            then (st, returned w, [ActClose; ActClose])
            else
              match env_recv env with
              | NetData n =>
                  let len_d := Z.min (Z.pos n) CHUNK_SIZE in
                  (st, with_phase w (PRecv bitrate size_bytes (recvd + len_d)), [])
              | NetClosed | NetError =>
                  (st, with_phase w (PUpdate bitrate size_bytes recvd), [ActClose])
              end
          else (st, with_phase w (PUpdate bitrate size_bytes recvd), [ActClose])
      | PUpdate bitrate size_bytes recvd =>
          (update_state (w_full_sid w) base_id (video_duration_sec chunk) bitrate
             size_bytes recvd (env_elapsed env) (env_t_sim env) (env_t_series env)
             (env_t_first env) (env_t_last env) st,
           next_chunk w, [])
      end
  end.

(** A worker run alone for a list of steps, with the actions it performs. *)
Fixpoint worker_run (envs : list Env) (st : State) (w : Worker)
    : State * Worker * list Action :=
  match envs with
  | [] => (st, w, [])
  | env :: rest =>
      let '(st1, w1, a1) := worker_step env st w in
      let '(st2, w2, a2) := worker_run rest st1 w1 in
      (st2, w2, a1 ++ a2)
  end.

(** ** The run: clock and workers interleaved *)

Record System := mkSystem {
  sys_state : State;
  sys_last_real_time : Q;      (* the clock thread's [last_real_time] *)
  sys_workers : list Worker
}.

(** A scheduling choice: the clock ticks at reading [now], or worker [i]
    takes one step. *)
Inductive SysEvent :=
| EvTick (now : Q)
| EvWorker (i : nat) (env : Env).

Definition sys_step (ev : SysEvent) (sys : System) : System :=
  match ev with
  | EvTick now =>
      let '(last, st) := playback_tick now (sys_last_real_time sys) (sys_state sys) in
      {| sys_state := st; sys_last_real_time := last;
         sys_workers := sys_workers sys |}
  | EvWorker i env =>
      match sys_workers sys !! i with
      | None => sys
      | Some w =>
          let '(st, w1, _) := worker_step env (sys_state sys) w in
          {| sys_state := st; sys_last_real_time := sys_last_real_time sys;
             sys_workers := <[i := w1]> (sys_workers sys) |}
      end
  end.

Definition sys_run (evs : list SysEvent) (sys : System) : System :=
  fold_left (fun s ev => sys_step ev s) evs sys.

(** The clock readings of a schedule never go back: each tick reads a time
    no earlier than the previous one. *)
Fixpoint clock_monotone (last : Q) (evs : list SysEvent) : Prop :=
  match evs with
  | [] => True
  | EvTick now :: rest => last <= now /\ clock_monotone now rest
  | EvWorker _ _ :: rest => clock_monotone last rest
  end.

(** The system of [run_client] once the threads are created: [now] is the
    reading stored as [start_time], [clock_start] the first reading of the
    playback thread, [order] and [swipes] the [stream_order] and
    [swipe_map] computed from the schedule, [streams] the pairs of
    [stream_id] and events. *)
Definition initial_system (now clock_start : Q) (order : list string)
    (swipes : gmap string Q) (streams : list (string * list Event)) : System :=
  let st := initial_state now order swipes in
  {| sys_state := st;
     sys_last_real_time := clock_start;
     sys_workers := map (fun s => spawn_worker (snd s) (fst s) st) streams |}.

(** ** Metrics aggregator: the fairness part of [run_client] *)

(** The ghost filter applied to one entry of [per_stream_bytes]. *)
Definition per_stream_rate (st : State) (sid : string) (b_count : Z) : option Q :=
  let start_t := default 0 (per_stream_first_ts st !! sid) in
  let last_t := default 0 (per_stream_last_ts st !! sid) in
  let dur := last_t - start_t in
  if Py.ltb 0.1 dur && (1000 <? b_count)%Z
  then Some (Py.float (b_count * 8) / (dur * 1e6))
  else None.

Definition per_stream_rates (st : State) : gmap string Q :=
  map_imap (per_stream_rate st) (per_stream_bytes st).

(** [list(per_stream_rates.values())]. *)
Definition surviving_rates (st : State) : list Q :=
  (map_to_list (per_stream_rates st)).*2.

Definition fairness_of (rates : list Q) : Q :=
  if (2 <=? length rates)%nat then
    let num := Py.sum rates ^ 2 in
    let den := Py.float (Z.of_nat (length rates))
               * Py.sum (map (fun r => r * r) rates) in
    if Py.ltb 0 den then num / den else 0
  else 1.0.

(** The value reported as ["fairness_index"]. *)
Definition fairness_index (st : State) : Q := fairness_of (surviving_rates st).

(** Sum of the per-stream byte counters. *)
Definition per_stream_total (m : gmap string Z) : Z :=
  map_fold (fun _ b acc => (b + acc)%Z) 0%Z m.

(** The fairness computation of the earlier replayer,
    [youtube_traces/p0_results/replayer.py], where the index starts as
    [None] and is set for one and for two or more rates. *)
Module P0.

Definition fairness_index_of (rates : list Q) : option Q :=
  if (2 <=? length rates)%nat then
    let num := Py.sum rates ^ 2 in
    let den := Py.float (Z.of_nat (length rates))
               * Py.sum (map (fun r => r * r) rates) in
    Some (if Py.ltb 0 den then num / den else 0.0)
  else if (length rates =? 1)%nat then Some 1.0
  else None.

End P0.

(** ** The fairness computation in double precision

    Python's [float] is IEEE 754 binary64 with [+], [-], [*] and [/]
    rounded to nearest even, which is what the primitives of [PrimFloat]
    compute.  [x ** 2] is taken as the rounded product [x * x].  The
    built-in [sum] starts from the int 0 and adds from left to right; from
    Python 3.12 on it carries a compensation term for floats, so the index
    is parameterised by the summation. *)
Module F64.

#[local] Set Warnings "-inexact-float".

(** [float(n)] for an int below 2^53. *)
Definition of_int (n : Z) : float := of_uint63 (Uint63.of_Z n).

(** [sum(l)], plain left-to-right addition. *)
Definition sum (l : list float) : float := fold_left add l 0%float.

(** One step of the compensated addition of Python 3.12 and later. *)
Definition cs_add (acc : float * float) (x : float) : float * float :=
  let '(total, c) := acc in
  let t := (total + x)%float in
  let c' :=
    if (abs x <=? abs total)%float
    then (c + ((total - t) + x))%float
    else (c + ((x - t) + total))%float in
  (t, c').

(** [sum(l)], compensated. *)
Definition sum_compensated (l : list float) : float :=
  let '(total, c) := fold_left cs_add l (0%float, 0%float) in
  if (c =? 0)%float then total else (total + c)%float.

(** The rate of one stream in [per_stream_rates], with its ghost filter. *)
Definition per_stream_rate (b_count : Z) (start_t last_t : float) : option float :=
  let dur := (last_t - start_t)%float in
  if (0.1 <? dur)%float && (1000 <? b_count)%Z
  then Some (of_int (b_count * 8) / (dur * 1e6))%float
  else None.

(** The fairness index for a given [sum]. *)
Definition fairness_of (sum : list float -> float) (rates : list float) : float :=
  if (2 <=? length rates)%nat then
    let num := (sum rates * sum rates)%float in
    let den := (of_int (Z.of_nat (length rates))
                * sum (map (fun r => r * r) rates))%float in
    if (0 <? den)%float then (num / den)%float else 0%float
  else 1%float.

(** The rate of a stream that moved 262500 bytes between the readings 1.0
    and 3.0. *)
Definition sample_rate : float :=
  match per_stream_rate 262500 1 3 with
  | Some r => r
  | None => 0
  end.

(** A rate whose square is below the smallest positive double. *)
Definition tiny_rate : float := 8e-303%float.

(** *** The ABR decision in double precision

    [get_abr_decision] as the interpreter runs it: the targets are the
    rounded products [est * 0.9] and [est * 0.5], and [<] and [<=] are the
    IEEE comparisons, false whenever an operand is NaN. *)

Definition BITRATE_LADDER : list (float * string) :=
  [(0.5%float, "240p"%string); (1.0%float, "360p"%string);
   (2.5%float, "720p"%string); (5.0%float, "1080p"%string);
   (8.0%float, "1440p"%string)].

Definition PANIC_THRESHOLD : float := 5.0%float.

(** The part of the shared state that [get_abr_decision] reads. *)
Record AbrState := mkAbrState {
  app_bandwidth_est : float;
  buffers : gmap string float;     (* a [defaultdict(float)] *)
  active_base_id : string
}.

Definition buffer_of (st : AbrState) (k : string) : float :=
  default 0%float (buffers st !! k).

Definition ladder_rates : list float := map fst BITRATE_LADDER.

(** [BITRATE_LADDER[0][0]]. *)
Definition lowest_rung : float :=
  match BITRATE_LADDER with
  | (b, _) :: _ => b
  | [] => 0%float
  end.

Fixpoint select_rung (ladder : list (float * string)) (target selected : float)
    : float :=
  match ladder with
  | [] => selected
  | (b, _) :: rest =>
      if (b <=? target)%float then select_rung rest target b else selected
  end.

Definition get_abr_decision (st : AbrState) (is_active : bool)
    (base_id : string) : float :=
  let est := app_bandwidth_est st in
  let buf := buffer_of st base_id in
  if is_active then
    let target :=
      if (buf <? 5.0)%float then (est * 0.5)%float else (est * 0.9)%float in
    select_rung BITRATE_LADDER target lowest_rung
  else
    let active_id := active_base_id st in
    if (buffer_of st active_id <? PANIC_THRESHOLD)%float then lowest_rung
    else select_rung BITRATE_LADDER (est * 0.5)%float lowest_rung.

(** [r] is the highest rung that does not exceed [target], the lowest rung
    standing in when every rung exceeds it (or [target] is NaN). *)
Definition highest_rung_le (target r : float) : Prop :=
  ((forall b, In b ladder_rates -> (b <=? target)%float = false) /\
   r = lowest_rung) \/
  (In r ladder_rates /\ (r <=? target)%float = true /\
   forall b, In b ladder_rates -> (b <=? target)%float = true ->
             (b <=? r)%float = true).

(** *** The chunk size in double precision *)

(** [int(x)] of a float: truncation toward zero; [None] stands for the
    [OverflowError] on an infinity and the [ValueError] on a NaN. *)
Definition int (x : float) : option Z :=
  match FloatOps.Prim2SF x with
  | SpecFloat.S754_zero _ => Some 0%Z
  | SpecFloat.S754_infinity _ => None
  | SpecFloat.S754_nan => None
  | SpecFloat.S754_finite s m e =>
      let mag :=
        if (0 <=? e)%Z then (Z.pos m * 2 ^ e)%Z else (Z.pos m / 2 ^ (- e))%Z in
      Some (if s then (- mag)%Z else mag)
  end.

(** [size_bytes = int((duration * bitrate * 1e6) / 8)], evaluated from
    left to right. *)
Definition size_bytes_of (duration bitrate : float) : option Z :=
  int ((duration * bitrate * 1e6) / 8)%float.

End F64.

(** ** Vocabulary of the statements *)

(** The bitrates of the ladder. *)
Definition ladder_rates : list Q := map fst BITRATE_LADDER.

(** [r] is the highest rung of [ladder] not exceeding [target], and [floor]
    when no rung fits. *)
Definition highest_rung_in (ladder : list Q) (floor target r : Q) : Prop :=
  ((forall b, In b ladder -> target < b) /\ r = floor) \/
  (In r ladder /\ r <= target /\
   forall b, In b ladder -> b <= target -> b <= r).

(** The same on the fixed ladder, the lowest rung being the floor. *)
Definition highest_rung_le (target r : Q) : Prop :=
  highest_rung_in ladder_rates lowest_rung target r.

(** Every buffer level of the state is non-negative. *)
Definition buffers_nonneg (st : State) : Prop :=
  forall k, 0 <= buffer_of st k.

(** Every chunk a worker still holds has a positive duration. *)
Definition durations_positive (ws : list Worker) : Prop :=
  Forall (fun w => Forall (fun c => 0 < video_duration_sec c) (w_chunks w)) ws.

(** The byte counters agree: the per-stream counters add up to the total. *)
Definition bytes_conserved (st : State) : Prop :=
  per_stream_total (per_stream_bytes st) = total_bytes st.

(** A step of the run as seen on the pair (active index, stall time). *)
Definition step_advances (ev : SysEvent) (before after : System) : Prop :=
  let st := sys_state before in
  let idx := active_video_index st in
  let idx' := active_video_index (sys_state after) in
  (idx' = idx \/
   (idx' = (idx + 1)%nat /\
    exists now next_sid,
      ev = EvTick now /\
      stream_order st !! (idx + 1)%nat = Some next_sid /\
      default 99999 (swipe_map st !! next_sid) <= now - start_time st)) /\
  (stall_time (sys_state after) = stall_time st \/
   exists now,
     ev = EvTick now /\
     0 <= now - sys_last_real_time before /\
     stall_time (sys_state after)
     = stall_time st + (now - sys_last_real_time before)).


(** The quantities of the index: count, sum and sum of squares. *)
Definition count_of (l : list Q) : Q := Py.float (Z.of_nat (length l)).
Definition squares_of (l : list Q) : Q := Py.sum (map (fun r => r * r) l).



(** ** Sample data for the worked instances *)

Definition sample_state : State :=
  initial_state 0 ["1"%string; "2"%string] (<["2"%string := 5.0]> (<["1"%string := 0.0]> ∅)).

Definition sample_chunk : Event :=
  {| action := "download"; video_duration_sec := 2.0; is_background := false |}.

Definition sample_worker : Worker := spawn_worker [sample_chunk] "1_0" sample_state.

Definition sample_env : Env :=
  {| env_connect_ok := true; env_recv := NetData 4096;
     env_elapsed := 0.5; env_t_sim := 1; env_t_series := 1;
     env_t_first := 1; env_t_last := 1 |}.

Definition sample_system : System :=
  initial_system 0 0 ["1"%string; "2"%string]
    (<["2"%string := 5.0]> (<["1"%string := 0.0]> ∅))
    [("1_0"%string, [sample_chunk])].

(** Gate, decision, one read of 4096 bytes, an empty read, the update, and
    a tick a tenth of a second after the start. *)
Definition sample_events : list SysEvent :=
  [EvWorker 0 sample_env; EvWorker 0 sample_env; EvWorker 0 sample_env;
   EvWorker 0 {| env_connect_ok := true; env_recv := NetClosed;
                 env_elapsed := 0.5; env_t_sim := 1; env_t_series := 1;
                 env_t_first := 1; env_t_last := 1 |};
   EvWorker 0 sample_env; EvTick 0.1].

(** Two ticks of the clock while nothing is buffered. *)
Definition stall_events : list SysEvent := [EvTick 0.1; EvTick 0.3].

(** A tick that accounts 0.2 s of stall, then gate, decision, one read of
    4096 bytes and an empty read: worker 0 is about to update. *)
Definition stall_then_transfer_events : list SysEvent :=
  [EvTick 0.2;
   EvWorker 0 sample_env; EvWorker 0 sample_env; EvWorker 0 sample_env;
   EvWorker 0 {| env_connect_ok := true; env_recv := NetClosed;
                 env_elapsed := 0.5; env_t_sim := 1; env_t_series := 1;
                 env_t_first := 1; env_t_last := 1 |}].



(** A state at the end of a run in which two streams moved 500000 and
    250000 bytes over two seconds each. *)
Definition sample_report_state : State :=
  {| start_time := 0;
     total_bytes := 750000;
     buffers := ∅;
     stall_time := 0.0;
     active_video_index := 1;
     active_base_id := "2";
     stream_order := ["1"%string; "2"%string];
     swipe_map := ∅;
     throughputs := [];
     throughput_timeseries := [];
     buffer_timeseries := [];
     bitrate_timeseries := [];
     app_bandwidth_est := 2.5;
     tp_window := [];
     last_stall_time := 0.0;
     per_stream_bytes := <["1_0"%string := 500000%Z]> (<["2_0"%string := 250000%Z]> ∅);
     per_stream_first_ts := <["1_0"%string := 1]> (<["2_0"%string := 2]> ∅);
     per_stream_last_ts := <["1_0"%string := 3]> (<["2_0"%string := 4]> ∅) |}.

(** ** Server side: [handle_server_connection]

    The request line is read up to the newline and parsed with [int]; the
    parsing is left out here and the parsed count is the input.  The reply
    is sent in slices of one random payload of at most 1 MiB, inside a
    [try] whose [except: pass] ends the reply at the first send that
    fails (the client closes its socket on a swipe or a timeout). *)

Definition MAX_PAYLOAD : Z := 1024 * 1024.

(** The [while sent < bytes_to_send] loop.  [sendall_ok k] tells whether
    the call number [k] of [conn.sendall] returns; a call that raises ends
    the handler through its [except: pass].  The result is the list of the
    sizes handed to the calls that returned, in order, and whether the
    loop ended by its own test.  [fuel] bounds the number of iterations. *)
Fixpoint send_loop (fuel : nat) (sendall_ok : nat -> bool) (k : nat)
    (payload_len bytes_to_send sent : Z) : list Z * bool :=
  match fuel with
  | O => ([], negb (sent <? bytes_to_send)%Z)
  | S fuel' =>
      if (sent <? bytes_to_send)%Z then
        let to_send := Z.min payload_len (bytes_to_send - sent) in
        if sendall_ok k then
          let '(pieces, finished) :=
            send_loop fuel' sendall_ok (S k) payload_len bytes_to_send
              (sent + to_send)%Z in
          (to_send :: pieces, finished)
        else ([], false)
      else ([], true)
  end.

(** The sends for a parsed count: [None] stands for the [ValueError] of
    [os.urandom] on a negative length, which the handler swallows before
    sending anything. *)
Definition server_sends (sendall_ok : nat -> bool) (bytes_to_send : Z)
    : option (list Z * bool) :=
  if (bytes_to_send <? 0)%Z then None
  else Some (send_loop (Z.to_nat bytes_to_send) sendall_ok 0
               (Z.min bytes_to_send MAX_PAYLOAD) bytes_to_send 0).

(** [sum] of a list of ints. *)
Definition total_sent (pieces : list Z) : Z := fold_right Z.add 0%Z pieces.

(** ** Client set-up: the first part of [run_client] *)

(** An entry of the schedule; [playback_start_sec] may be absent. *)
Record Stream := mkStream {
  stream_id : string;
  playback_start_sec : option Q;
  events : list Event
}.

(** What the loop over the sorted streams has built so far. *)
Record OrderAcc := mkOrderAcc {
  acc_order : list string;
  acc_swipes : gmap string Q;
  acc_seen : gset string
}.

(** The body of [for s in streams]. *)
Definition order_step (acc : OrderAcc) (s : Stream) : OrderAcc :=
  let base_id := base_id_of (stream_id s) in
  if decide (base_id ∈ acc_seen acc) then acc
  else
    {| acc_order := acc_order acc ++ [base_id];
       acc_swipes := <[base_id := default 0.0 (playback_start_sec s)]> (acc_swipes acc);
       acc_seen := {[base_id]} ∪ acc_seen acc |}.

(** [stream_order], [swipe_map] and [seen] for the streams in sorted order. *)
Definition build_order (streams : list Stream) : OrderAcc :=
  fold_left order_step streams
    {| acc_order := []; acc_swipes := ∅; acc_seen := ∅ |}.

(** The run that [run_client] starts for the streams in sorted order. *)
Definition client_system (now clock_start : Q) (streams : list Stream) : System :=
  let acc := build_order streams in
  initial_system now clock_start (acc_order acc) (acc_swipes acc)
    (map (fun s => (stream_id s, events s)) streams).

(** [server_ips[idx % len(server_ips)]]: [None] stands for the
    [ZeroDivisionError] on an empty list. *)
Definition server_ip_of (server_ips : list string) (idx : Z) : option string :=
  match server_ips with
  | [] => None
  | _ :: _ => server_ips !! Z.to_nat (idx mod Z.of_nat (length server_ips))
  end.

(** ** Final metrics: the last part of [run_client] *)

(** [max(1e-6, time.time() - state["start_time"])]. *)
Definition total_duration_of (end_time : Q) (st : State) : Q :=
  Py.max2 1e-6 (end_time - start_time st).

Definition avg_throughput_mbps (end_time : Q) (st : State) : Q :=
  Py.float (total_bytes st * 8) / (total_duration_of end_time st * 1e6).

(** The variable [var] for a list of samples; [jitter] is [var ** 0.5]. *)
Definition variance_of (xs : list Q) : Q :=
  let n := Py.float (Z.of_nat (length xs)) in
  let mean := Py.sum xs / n in
  Py.sum (map (fun x => (x - mean) ^ 2) xs) / n.

(** The square of ["jitter_mbps"]: [var] for two samples or more, else 0. *)
Definition jitter_squared (st : State) : Q :=
  if (1 <? length (throughputs st))%nat then variance_of (throughputs st) else 0.0.

(** ["avg_bitrate_selected_mbps"]. *)
Definition avg_bitrate_selected (st : State) : Q :=
  match bitrate_timeseries st with
  | [] => 0.0
  | _ :: _ =>
      Py.sum (map snd (bitrate_timeseries st))
      / Py.float (Z.of_nat (length (bitrate_timeseries st)))
  end.

(** ["rebuffering_ratio"]. *)
Definition rebuffering_ratio (end_time : Q) (st : State) : Q :=
  stall_time st / total_duration_of end_time st.

(** ** Vocabulary of the further statements *)

(** The transfer a worker carries in its receive and update phases: a rung
    of the ladder, the size computed from it, and a received count that the
    receive loop can have reached. *)
Definition transfer_ok (duration bitrate : Q) (size_bytes recvd : Z) : Prop :=
  In bitrate ladder_rates /\
  size_bytes = size_bytes_of duration bitrate /\
  (0 <= recvd)%Z /\
  (0 < recvd -> 0 < size_bytes /\ recvd < size_bytes + CHUNK_SIZE)%Z.

Definition worker_ok (w : Worker) : Prop :=
  match w_phase w with
  | PRecv bitrate size_bytes recvd | PUpdate bitrate size_bytes recvd =>
      match w_chunks w with
      | chunk :: _ => transfer_ok (video_duration_sec chunk) bitrate size_bytes recvd
      | [] => True
      end
  | PGate | PDecide | PDone => True
  end.

(** Number of requests in a trace. *)
Definition count_sends (acts : list Action) : nat :=
  length (List.filter (fun a => match a with ActSend _ => true | _ => false end) acts).

(** Number of requests a worker can still make. *)
Definition requests_left (w : Worker) : nat :=
  match w_phase w with
  | PGate | PDecide => length (w_chunks w)
  | PRecv _ _ _ | PUpdate _ _ _ => pred (length (w_chunks w))
  | PDone => 0
  end.

(** Number of clock ticks in a schedule of steps. *)
Definition count_ticks (evs : list SysEvent) : nat :=
  length (List.filter (fun ev => match ev with EvTick _ => true | _ => false end) evs).

(** The last [n] elements of a list. *)
Definition last_n {A : Type} (n : nat) (l : list A) : list A :=
  drop (length l - n) l.

(** No character of [s] is an underscore. *)
Fixpoint underscore_free (s : string) : bool :=
  match s with
  | EmptyString => true
  | String c rest => negb (Ascii.eqb c "_"%char) && underscore_free rest
  end.

(** What the loop over the streams keeps true of its three variables. *)
Definition order_inv (acc : OrderAcc) : Prop :=
  NoDup (acc_order acc) /\
  (forall x, x ∈ acc_order acc <-> x ∈ acc_seen acc) /\
  dom (acc_swipes acc) = acc_seen acc.

(** What the update block keeps: the window is the tail of the throughput
    list, and the three lists it appends to move together. *)
Definition series_aligned (st : State) : Prop :=
  tp_window st = last_n TP_WINDOW_LEN (throughputs st) /\
  map snd (throughput_timeseries st) = throughputs st /\
  length (bitrate_timeseries st) = length (throughputs st).

Definition active_consistent (st : State) : Prop :=
  match stream_order st !! active_video_index st with
  | Some sid => active_base_id st = sid
  | None => stream_order st = [] /\ active_video_index st = 0%nat
  end.

Definition bitrates_on_ladder (st : State) : Prop :=
  Forall (fun p => In p.2 ladder_rates) (bitrate_timeseries st).

Definition counters_aligned (st : State) : Prop :=
  dom (per_stream_first_ts st) = dom (per_stream_bytes st) /\
  dom (per_stream_last_ts st) = dom (per_stream_bytes st) /\
  map_Forall (fun _ b => (0 < b)%Z) (per_stream_bytes st) /\
  (0 <= total_bytes st)%Z.

Definition samples_nonneg (st : State) : Prop :=
  buffers_nonneg st /\ Forall (fun p => 0 <= p.2) (buffer_timeseries st).

(** * Properties *)

(** ** Python comparisons, [min] and [max] against the orders of [Q] *)

Lemma ltb_true (x y : Q) : Py.ltb x y = true <-> x < y.
Proof.
  unfold Py.ltb. rewrite negb_true_iff, <- not_true_iff_false, Qle_bool_iff.
  split; [apply Qnot_le_lt | apply Qlt_not_le].
Qed.

Lemma ltb_false (x y : Q) : Py.ltb x y = false <-> y <= x.
Proof.
  unfold Py.ltb. rewrite negb_false_iff. apply Qle_bool_iff.
Qed.

Lemma geb_true (x y : Q) : Py.geb x y = true <-> y <= x.
Proof. apply Qle_bool_iff. Qed.

Lemma ltb_proper (x x' y y' : Q) : x == x' -> y == y' -> Py.ltb x y = Py.ltb x' y'.
Proof.
  intros Hx Hy. unfold Py.ltb. f_equal. now rewrite Hx, Hy.
Qed.

Ltac case_ltb :=
  match goal with
  | |- context [Py.ltb ?x ?y] =>
      let E := fresh "E" in
      destruct (Py.ltb x y) eqn:E;
      [apply ltb_true in E | apply ltb_false in E]
  end.

Lemma min2_Qmin (a b : Q) : Py.min2 a b == Qmin a b.
Proof.
  unfold Py.min2. case_ltb; symmetry.
  - apply Q.min_r. lra.
  - now apply Q.min_l.
Qed.

Lemma max2_Qmax (a b : Q) : Py.max2 a b == Qmax a b.
Proof.
  unfold Py.max2. case_ltb; symmetry.
  - apply Q.max_r. lra.
  - now apply Q.max_l.
Qed.

Lemma max2_lower (a b : Q) : a <= Py.max2 a b.
Proof. rewrite max2_Qmax. apply Q.le_max_l. Qed.

Lemma min_from_proper (l : list Q) (x x' : Q) :
  x == x' -> Py.min_from x l == Py.min_from x' l.
Proof.
  revert x x'. induction l as [|a l IH]; intros x x' Hx; [exact Hx|].
  unfold Py.min_from in *. cbn [fold_left].
  apply IH. rewrite (ltb_proper a a x x' (Qeq_refl a) Hx).
  destruct (Py.ltb a x'); [reflexivity | exact Hx].
Qed.

Lemma fold_Qmin_absorb (l : list Q) (x a : Q) :
  fold_right Qmin (Qmin x a) l == Qmin a (fold_right Qmin x l).
Proof.
  induction l as [|b l IH]; cbn [fold_right].
  - apply Q.min_comm.
  - rewrite IH, !Q.min_assoc. now rewrite (Q.min_comm b a).
Qed.

Lemma min_from_fold (l : list Q) (x : Q) :
  Py.min_from x l == fold_right Qmin x l.
Proof.
  revert x. induction l as [|a l IH]; intros x; [reflexivity|].
  change (Py.min_from x (a :: l)) with (Py.min_from (Py.min2 x a) l).
  rewrite (min_from_proper l _ _ (min2_Qmin x a)), IH.
  apply fold_Qmin_absorb.
Qed.

(** ** Bandwidth estimator *)

Lemma ewma_alpha_spec (buf : Q) : ewma_alpha buf = EstimatorSpec.alpha buf.
Proof.
  unfold ewma_alpha, EstimatorSpec.alpha.
  repeat case_ltb; repeat destruct (Qlt_le_dec _ _); try reflexivity; lra.
Qed.

Lemma risk_factor_spec (buf : Q) : risk_factor_of buf = EstimatorSpec.risk buf.
Proof.
  unfold risk_factor_of, EstimatorSpec.risk.
  repeat case_ltb; repeat destruct (Qlt_le_dec _ _); try reflexivity; lra.
Qed.

Lemma push_window_nonempty (w : list Q) (tp : Q) : push_window w tp <> [].
Proof.
  unfold push_window.
  destruct (TP_WINDOW_LEN <? length (w ++ [tp]))%nat eqn:E.
  - apply Nat.ltb_lt in E. unfold TP_WINDOW_LEN in E.
    destruct (w ++ [tp]) as [|x [|y l]]; cbn in *; try lia. discriminate.
  - destruct w; discriminate.
Qed.

Lemma safe_floor_window_min (w : list Q) (tp : Q) :
  w <> [] -> safe_floor_of w tp == EstimatorSpec.window_min w.
Proof.
  destruct w as [|x l]; [congruence|]. intros _. apply min_from_fold.
Qed.

(** The window keeps at most [TP_WINDOW_LEN] samples, the newest last. *)
Lemma push_window_length (w : list Q) (tp : Q) :
  (length w <= TP_WINDOW_LEN)%nat ->
  (length (push_window w tp) <= TP_WINDOW_LEN)%nat /\
  last (push_window w tp) = Some tp.
Proof.
  intros Hlen. unfold push_window.
  destruct (TP_WINDOW_LEN <? length (w ++ [tp]))%nat eqn:E.
  - apply Nat.ltb_lt in E. rewrite length_app in E. cbn in E.
    destruct w as [|x l]; cbn in *; [unfold TP_WINDOW_LEN in E; lia|].
    split; [rewrite length_app; cbn; lia | apply last_snoc].
  - apply Nat.ltb_ge in E. split; [exact E | apply last_snoc].
Qed.

(** After an update the recorded stall time is the stall time seen by that
    update, so the next update compares against it. *)
Lemma last_stall_time_tracks (st : State) (tp : Q) :
  last_stall_time st <= stall_time st ->
  last_stall_time (update_bandwidth_estimate st tp) == stall_time st.
Proof.
  intros H. cbn. case_ltb; [reflexivity | lra].
Qed.

(** C1.  The estimate stored by [update_bandwidth_estimate] is
    [clamp (risk buf * (0.5 * ((1 - alpha buf) * prev + alpha buf * tp)
    + 0.5 * min window'), 0.1, 100)] for the active buffer [buf], with
    [alpha] in 0.10 / 0.20 / 0.30 at the thresholds 3 and 10 and [risk] in
    0.7 / 0.85 / 1.0 / 1.1 at the thresholds 2, 5 and 12, [window'] being
    the window after the sample is pushed; when the stall time exceeds the
    one recorded at the previous update, the value is capped at [0.8 * tp]
    before the clamp, and the update records the current stall time for
    the next one. *)
Theorem estimator_formula (st : State) (tp : Q) :
  let buf := buffer_of st (active_base_id st) in
  let st' := update_bandwidth_estimate st tp in
  tp_window st' = push_window (tp_window st) tp /\
  (last_stall_time st <= stall_time st -> last_stall_time st' == stall_time st) /\
  app_bandwidth_est st' ==
    EstimatorSpec.estimate (app_bandwidth_est st) tp buf (tp_window st')
      (last_stall_time st) (stall_time st).
Proof.
  intros buf st'. split; [reflexivity|].
  split; [apply last_stall_time_tracks|].
  unfold st', update_bandwidth_estimate, EstimatorSpec.estimate,
    EstimatorSpec.clamp.
  cbn [app_bandwidth_est tp_window].
  fold buf.
  rewrite max2_Qmax, min2_Qmin.
  rewrite <- ewma_alpha_spec, <- risk_factor_spec.
  pose proof (safe_floor_window_min _ tp (push_window_nonempty (tp_window st) tp)) as Hfloor.
  apply Q.max_compat; [reflexivity|].
  apply Q.min_compat; [|reflexivity].
  destruct (Qlt_le_dec (last_stall_time st) (stall_time st)) as [Hs|Hs].
  - apply ltb_true in Hs. rewrite Hs, min2_Qmin.
    apply Q.min_compat; [|ring]. rewrite Hfloor. ring.
  - apply ltb_false in Hs. rewrite Hs, Hfloor. ring.
Qed.

Example estimator_first_sample :
  app_bandwidth_est
    (update_bandwidth_estimate (initial_state 0 ["1"%string] ∅) 4) == 2.3275.
Proof. reflexivity. Qed.

(** ** ABR decision *)

Lemma select_rung_highest (ladder : list (Q * string)) (target sel : Q) :
  StronglySorted Qle (map fst ladder) ->
  highest_rung_in (map fst ladder) sel target (select_rung ladder target sel).
Proof.
  revert sel. induction ladder as [|[b lbl] rest IH]; intros sel Hsorted.
  - left. split; [intros b []|reflexivity].
  - cbn [map fst] in Hsorted. apply StronglySorted_inv in Hsorted as [Hrest Hb].
    rewrite Forall_forall in Hb.
    cbn [select_rung]. destruct (Qle_bool b target) eqn:E.
    + apply Qle_bool_iff in E. right.
      destruct (IH b Hrest) as [[Hall ->]|(Hin & Hle & Hmax)].
      * split; [now left|]. split; [exact E|].
        intros b' [<-|Hb'] Hb't; [apply Qle_refl|].
        specialize (Hall b' Hb'). lra.
      * split; [now right|]. split; [exact Hle|].
        intros b' [<-|Hb'] Hb't; [|now apply Hmax].
        apply Hb. now apply list_elem_of_In.
    + left. split; [|reflexivity].
      assert (target < b) as Hlt.
      { apply Qnot_le_lt. intros H. apply Qle_bool_iff in H. congruence. }
      intros b' [<-|Hb']; [exact Hlt|].
      apply list_elem_of_In, Hb in Hb'. lra.
Qed.

Lemma ladder_sorted : StronglySorted Qle ladder_rates.
Proof.
  unfold ladder_rates, BITRATE_LADDER. cbn [map fst].
  repeat (constructor; [|repeat (constructor; [discriminate|]); constructor]).
  constructor.
Qed.

Lemma highest_rung_in_target (ladder : list Q) (floor t t' r : Q) :
  t == t' -> highest_rung_in ladder floor t r -> highest_rung_in ladder floor t' r.
Proof.
  intros Ht [[Hall ->]|(Hin & Hle & Hmax)]; [left|right].
  - split; [|reflexivity]. intros b Hb. rewrite <- Ht. now apply Hall.
  - split; [exact Hin|]. split; [now rewrite <- Ht|].
    intros b Hb Hbt. apply Hmax; [exact Hb|now rewrite Ht].
Qed.

Lemma highest_rung_member (target r : Q) :
  highest_rung_le target r -> In r ladder_rates /\ lowest_rung <= r.
Proof.
  intros [[_ ->]|(Hin & _ & _)].
  - split; [now left|apply Qle_refl].
  - split; [exact Hin|].
    cbn in Hin. unfold lowest_rung; cbn.
    repeat (destruct Hin as [<-|Hin]; [lra|]). destruct Hin.
Qed.

Lemma select_rung_ladder (target : Q) :
  highest_rung_le target (select_rung BITRATE_LADDER target lowest_rung).
Proof. apply select_rung_highest, ladder_sorted. Qed.

Lemma abr_decision_cases (st : State) (is_active : bool) (base_id : string) :
  let est := app_bandwidth_est st in
  let r := get_abr_decision st is_active base_id in
  if is_active then
    highest_rung_le
      (if Qlt_le_dec (buffer_of st base_id) 5 then 0.5 * est else 0.9 * est) r
  else if Qlt_le_dec (buffer_of st (active_base_id st)) PANIC_THRESHOLD
    then r = lowest_rung
    else highest_rung_le (0.5 * est) r.
Proof.
  intros est r. unfold r, get_abr_decision. fold est. destruct is_active.
  - case_ltb; destruct (Qlt_le_dec _ _); try lra;
      (eapply highest_rung_in_target; [|apply select_rung_ladder]); ring.
  - case_ltb; destruct (Qlt_le_dec _ _); try lra; [reflexivity|].
    eapply highest_rung_in_target; [|apply select_rung_ladder]. ring.
Qed.

Lemma abr_decision_on_ladder (st : State) (is_active : bool) (base_id : string) :
  In (get_abr_decision st is_active base_id) ladder_rates /\
  lowest_rung <= get_abr_decision st is_active base_id.
Proof.
  pose proof (abr_decision_cases st is_active base_id) as Hmain. cbn zeta in Hmain.
  destruct is_active.
  - eapply highest_rung_member, Hmain.
  - destruct (Qlt_le_dec _ _).
    + rewrite Hmain. split; [now left|apply Qle_refl].
    + eapply highest_rung_member, Hmain.
Qed.

Lemma abr_decision_positive (st : State) (is_active : bool) (base_id : string) :
  0 < get_abr_decision st is_active base_id.
Proof.
  destruct (abr_decision_on_ladder st is_active base_id) as [_ H].
  unfold lowest_rung in H; cbn in H. lra.
Qed.

Example abr_initial_active :
  get_abr_decision (initial_state 0 ["1"%string] ∅) true "1" = 1.0.
Proof. reflexivity. Qed.

(** ** The ABR decision in double precision *)

Section AbrDouble.
#[local] Set Warnings "-inexact-float".

(** Two positive finite doubles with increasing exponents: whatever lies
    below the smaller one lies below the larger one, NaN included. *)
Lemma leb_false_above (a b t : float) :
  match FloatOps.Prim2SF a, FloatOps.Prim2SF b with
  | SpecFloat.S754_finite false _ ea, SpecFloat.S754_finite false _ eb =>
      (ea < eb)%Z
  | _, _ => False
  end ->
  (a <=? t)%float = false -> (b <=? t)%float = false.
Proof.
  rewrite !FloatAxioms.leb_spec.
  destruct (FloatOps.Prim2SF a) as [| | |sa ma ea]; try contradiction.
  destruct sa; try contradiction.
  destruct (FloatOps.Prim2SF b) as [| | |sb mb eb]; try contradiction.
  destruct sb; try contradiction.
  intros He. unfold SpecFloat.SFleb, SpecFloat.SFcompare.
  destruct (FloatOps.Prim2SF t) as [[]|[]| |[] m e];
    try reflexivity; try discriminate.
  destruct (Z.compare_spec ea e) as [->|Hlt|Hgt];
    destruct (Z.compare_spec eb e) as [Heq|Hlt'|Hgt'];
    try lia; try discriminate; try reflexivity.
  all: destruct (Pos.compare_cont Eq ma m); try discriminate; try reflexivity.
Qed.

Lemma ladder_leb_chain (t : float) :
  ((0.5 <=? t)%float = false -> (1 <=? t)%float = false) /\
  ((1 <=? t)%float = false -> (2.5 <=? t)%float = false) /\
  ((2.5 <=? t)%float = false -> (5 <=? t)%float = false) /\
  ((5 <=? t)%float = false -> (8 <=? t)%float = false).
Proof. repeat split; apply leb_false_above; vm_compute; reflexivity. Qed.

Lemma select_rung_highest_f64 (t : float) :
  F64.highest_rung_le t (F64.select_rung F64.BITRATE_LADDER t F64.lowest_rung).
Proof.
  destruct (ladder_leb_chain t) as (H1 & H2 & H3 & H4).
  unfold F64.highest_rung_le, F64.ladder_rates, F64.BITRATE_LADDER, F64.lowest_rung.
  cbn [F64.select_rung map fst].
  destruct (0.5 <=? t)%float eqn:E1; destruct (1 <=? t)%float eqn:E2;
    destruct (2.5 <=? t)%float eqn:E3; destruct (5 <=? t)%float eqn:E4;
    destruct (8 <=? t)%float eqn:E5;
    try discriminate (H1 eq_refl); try discriminate (H2 eq_refl);
    try discriminate (H3 eq_refl); try discriminate (H4 eq_refl).
  1-5: right; split; [cbn; repeat first [now left|right]|];
    (split; [assumption|]); intros b Hb Hbt;
    repeat (destruct Hb as [<-|Hb]; [first [reflexivity|congruence]|]);
    destruct Hb.
  left. split; [|reflexivity]. intros b Hb.
  repeat (destruct Hb as [<-|Hb]; [assumption|]). destruct Hb.
Qed.

Lemma highest_rung_member_f64 (target r : float) :
  F64.highest_rung_le target r ->
  In r F64.ladder_rates /\ (F64.lowest_rung <=? r)%float = true.
Proof.
  intros [[_ ->]|(Hin & _ & _)].
  - split; [now left|reflexivity].
  - split; [exact Hin|].
    cbn in Hin. repeat (destruct Hin as [<-|Hin]; [reflexivity|]). destruct Hin.
Qed.

(** C2.  [get_abr_decision], as computed on doubles, returns for an active
    stream the highest rung not exceeding the target, which is the product
    of the estimate and 0.9, or of the estimate and 0.5 when the stream's
    own buffer is below 5 s; for a stream that is not active, the lowest
    rung when the active buffer is below the panic threshold of 5 s and
    the highest rung not exceeding the product of the estimate and 0.5
    otherwise; the lowest rung, 0.5 Mbps, is the floor and the result is
    always a rung of the ladder.  The target is the product as the code
    forms it, rounded to a double. *)
Theorem abr_decision_highest_rung (st : F64.AbrState) (is_active : bool)
    (base_id : string) :
  let est := F64.app_bandwidth_est st in
  let r := F64.get_abr_decision st is_active base_id in
  (if is_active then
     F64.highest_rung_le
       (if (F64.buffer_of st base_id <? 5)%float
        then (est * 0.5)%float else (est * 0.9)%float) r
   else if (F64.buffer_of st (F64.active_base_id st) <? F64.PANIC_THRESHOLD)%float
     then r = F64.lowest_rung
     else F64.highest_rung_le (est * 0.5)%float r) /\
  F64.PANIC_THRESHOLD = 5%float /\ F64.lowest_rung = 0.5%float /\
  In r F64.ladder_rates /\ (F64.lowest_rung <=? r)%float = true.
Proof.
  intros est r.
  assert (if is_active then
            F64.highest_rung_le
              (if (F64.buffer_of st base_id <? 5)%float
               then (est * 0.5)%float else (est * 0.9)%float) r
          else if (F64.buffer_of st (F64.active_base_id st) <? F64.PANIC_THRESHOLD)%float
            then r = F64.lowest_rung
            else F64.highest_rung_le (est * 0.5)%float r) as Hmain.
  { unfold r, F64.get_abr_decision. fold est. destruct is_active.
    - apply select_rung_highest_f64.
    - destruct (_ <? _)%float; [reflexivity|apply select_rung_highest_f64]. }
  split; [exact Hmain|]. split; [reflexivity|]. split; [reflexivity|].
  destruct is_active.
  - eapply highest_rung_member_f64, Hmain.
  - destruct (_ <? _)%float.
    + rewrite Hmain. split; [now left|reflexivity].
    + eapply highest_rung_member_f64, Hmain.
Qed.

(** At an estimate of 2.7777777777777777 the product with 0.9 rounds to
    2.5, so the 2.5 Mbps rung is selected by an active stream with a
    comfortable buffer; in exact arithmetic the product stays below 2.5
    and the selection is the 1.0 Mbps rung. *)
Example abr_rounded_target :
  let st := F64.mkAbrState 2.7777777777777777 (<["1"%string := 6%float]> ∅) "1" in
  (F64.app_bandwidth_est st * 0.9)%float = 2.5%float /\
  F64.get_abr_decision st true "1" = 2.5%float /\
  select_rung BITRATE_LADDER (27777777777777777 / 10000000000000000 * 0.9) lowest_rung == 1.
Proof. cbn zeta. split; [reflexivity|]. split; reflexivity. Qed.

End AbrDouble.

(** ** Gating *)

Lemma gate_break_iff (my_idx : Z) (base_id : string) (chunk : Event) (st : State) :
  gate_check my_idx base_id chunk st = GateBreak <->
  (my_idx = Z.of_nat (active_video_index st) /\
   buffer_of st base_id < MAX_BUFFER_ACTIVE) \/
  (my_idx = (Z.of_nat (active_video_index st) + 1)%Z /\
   is_background chunk = true /\
   buffer_of st base_id < PREFETCH_TARGET).
Proof.
  unfold gate_check.
  destruct (Z.ltb_spec my_idx (Z.of_nat (active_video_index st))) as [Hlt|Hge].
  { split; [discriminate|]. intros [[-> _]|[-> _]]; lia. }
  destruct (Z.eqb_spec my_idx (Z.of_nat (active_video_index st))) as [Heq|Hne].
  { case_ltb; split; try discriminate; auto.
    intros [[_ H]|[H _]]; [lra|lia]. }
  destruct (Z.eqb_spec my_idx (Z.of_nat (active_video_index st) + 1)) as [Heq|Hne1].
  { destruct (is_background chunk).
    - case_ltb; split; try discriminate; auto.
      intros [[H _]|(_ & _ & H)]; [lia|lra].
    - split; [discriminate|]. intros [[H _]|(_ & H & _)]; [lia|discriminate]. }
  split; [discriminate|]. intros [[H _]|[H _]]; lia.
Qed.

Lemma gate_return_iff (my_idx : Z) (base_id : string) (chunk : Event) (st : State) :
  gate_check my_idx base_id chunk st = GateReturn <->
  (my_idx < Z.of_nat (active_video_index st))%Z.
Proof.
  unfold gate_check.
  destruct (Z.ltb_spec my_idx (Z.of_nat (active_video_index st))) as [Hlt|Hge].
  { split; auto. }
  split; [|lia].
  repeat match goal with
         | |- context [if ?b then _ else _] => destruct b
         end; discriminate.
Qed.

Lemma returned_stays (envs : list Env) (st : State) (w : Worker) :
  worker_run envs st (returned w) = (st, returned w, []).
Proof.
  induction envs as [|env rest IH]; [reflexivity|].
  cbn [worker_run worker_step returned w_chunks]. fold (returned w).
  change (returned (returned w)) with (returned w). now rewrite IH.
Qed.

(** C4.  A worker in its gating loop goes on to the transfer exactly when
    it is the active stream with its buffer below the active ceiling of
    20 s, or it is the stream right after the active one, the chunk is
    marked [is_background] and its buffer is below the prefetch target of
    5 s (smaller than the ceiling); a worker whose position is behind the
    active index returns at once, and from then on does nothing: no request
    for this chunk or for a later one. *)
Theorem gating_rule (w : Worker) (chunk : Event) (rest : list Event)
    (st : State) (env : Env) :
  w_chunks w = chunk :: rest ->
  w_phase w = PGate ->
  let my_idx := w_my_idx w in
  let active_idx := Z.of_nat (active_video_index st) in
  let buf := buffer_of st (base_id_of (w_full_sid w)) in
  (worker_step env st w = (st, with_phase w PDecide, []) <->
     (my_idx = active_idx /\ buf < MAX_BUFFER_ACTIVE) \/
     (my_idx = (active_idx + 1)%Z /\ is_background chunk = true /\
      buf < PREFETCH_TARGET)) /\
  MAX_BUFFER_ACTIVE == 20 /\ PREFETCH_TARGET == 5 /\
  PREFETCH_TARGET < MAX_BUFFER_ACTIVE /\
  ((my_idx < active_idx)%Z ->
     worker_step env st w = (st, returned w, []) /\
     forall envs st', worker_run envs st' (returned w) = (st', returned w, [])).
Proof.
  intros Hchunks Hphase my_idx active_idx buf.
  subst my_idx active_idx buf.
  split; [|split; [reflexivity|split; [reflexivity|split; [reflexivity|]]]].
  - rewrite <- gate_break_iff with (chunk := chunk).
    unfold worker_step. rewrite Hchunks, Hphase.
    destruct (gate_check _ _ _ _) eqn:E; split; try reflexivity; try discriminate.
    all: intros H; inversion H as [Hw]; apply (f_equal w_phase) in Hw;
      cbn in Hw; congruence.
  - intros Hlt. split; [|intros; apply returned_stays].
    apply gate_return_iff with (base_id := base_id_of (w_full_sid w))
      (chunk := chunk) in Hlt.
    unfold worker_step. now rewrite Hchunks, Hphase, Hlt.
Qed.

Lemma gating_rule_witness :
  PREFETCH_TARGET < MAX_BUFFER_ACTIVE /\
  worker_step sample_env sample_state sample_worker
  = (sample_state, with_phase sample_worker PDecide, []).
Proof.
  destruct (gating_rule sample_worker sample_chunk [] sample_state sample_env
              eq_refl eq_refl) as (Hiff & _ & _ & Hlt & _).
  split; [exact Hlt|]. apply Hiff. left. split; reflexivity.
Defined.

(** ** Effects of the steps on the shared state *)

Lemma buffer_of_insert (st : State) (m : gmap string Q) (k k' : string) (v : Q) :
  default 0 (<[k := v]> m !! k') = if decide (k = k') then v else default 0 (m !! k').
Proof.
  rewrite lookup_insert. now destruct (decide (k = k')).
Qed.

Lemma advance_active_buffers (sim_time : Q) (st : State) :
  buffers (advance_active sim_time st) = buffers st.
Proof.
  unfold advance_active.
  destruct (_ <? _)%nat; [|reflexivity].
  destruct (_ !! _); [|reflexivity].
  now destruct (Py.geb _ _).
Qed.

Lemma advance_active_stall (sim_time : Q) (st : State) :
  stall_time (advance_active sim_time st) = stall_time st.
Proof.
  unfold advance_active.
  destruct (_ <? _)%nat; [|reflexivity].
  destruct (_ !! _); [|reflexivity].
  now destruct (Py.geb _ _).
Qed.

Lemma advance_active_bytes (sim_time : Q) (st : State) :
  total_bytes (advance_active sim_time st) = total_bytes st /\
  per_stream_bytes (advance_active sim_time st) = per_stream_bytes st.
Proof.
  unfold advance_active.
  destruct (_ <? _)%nat; [|easy].
  destruct (_ !! _); [|easy].
  now destruct (Py.geb _ _).
Qed.

(** The swipe check moves the index by at most one, and only when the
    simulated time has reached the start time of the next stream. *)
Lemma advance_active_index (sim_time : Q) (st : State) :
  let idx := active_video_index st in
  let idx' := active_video_index (advance_active sim_time st) in
  idx' = idx \/
  (idx' = (idx + 1)%nat /\
   exists next_sid,
     stream_order st !! (idx + 1)%nat = Some next_sid /\
     active_base_id (advance_active sim_time st) = next_sid /\
     default 99999 (swipe_map st !! next_sid) <= sim_time).
Proof.
  cbn zeta. unfold advance_active.
  destruct (_ <? _)%nat; [|now left].
  destruct (stream_order st !! _) as [next_sid|] eqn:E; [|now left].
  destruct (Py.geb _ _) eqn:G; [|now left].
  right. split; [reflexivity|]. exists next_sid.
  apply geb_true in G. auto.
Qed.

Lemma drain_or_stall_buffer (delta : Q) (st : State) (k : string) :
  buffer_of (drain_or_stall delta st) k =
  if Py.ltb 0 (buffer_of st (active_base_id st)) then
    if decide (active_base_id st = k)
    then Py.max2 0.0 (buffer_of st (active_base_id st) - delta)
    else buffer_of st k
  else buffer_of st k.
Proof.
  unfold drain_or_stall. destruct (Py.ltb 0 _); [|reflexivity].
  unfold buffer_of at 1. cbn [set_buffer buffers]. apply (buffer_of_insert st).
Qed.

Lemma drain_or_stall_nonneg (delta : Q) (st : State) :
  buffers_nonneg st -> buffers_nonneg (drain_or_stall delta st).
Proof.
  intros H k. rewrite drain_or_stall_buffer.
  destruct (Py.ltb 0 _); [|apply H].
  destruct (decide _); [|apply H].
  pose proof (max2_lower 0.0 (buffer_of st (active_base_id st) - delta)). lra.
Qed.

Lemma tick_locked_buffer (delta sim_time : Q) (st : State) (k : string) :
  buffer_of (tick_locked delta sim_time st) k
  = buffer_of (drain_or_stall delta (advance_active sim_time st)) k.
Proof. reflexivity. Qed.

Lemma tick_locked_nonneg (delta sim_time : Q) (st : State) :
  buffers_nonneg st -> buffers_nonneg (tick_locked delta sim_time st).
Proof.
  intros H k. rewrite tick_locked_buffer. apply drain_or_stall_nonneg.
  intros k'. unfold buffer_of. rewrite advance_active_buffers. apply H.
Qed.

(** What the update block does to the buffer of [base_id]: a credit of
    [duration * (recvd / max(1, size_bytes))] when bytes were received. *)
Lemma update_state_buffer (full_sid base_id : string) (duration bitrate : Q)
    (size_bytes recvd : Z) (elapsed t1 t2 t3 t4 : Q) (st : State) (k : string) :
  buffer_of (update_state full_sid base_id duration bitrate size_bytes recvd
               elapsed t1 t2 t3 t4 st) k =
  if (0 <? recvd)%Z then
    if decide (base_id = k)
    then buffer_of st base_id
         + duration * (Py.float recvd / Py.float (Z.max 1 size_bytes))
    else buffer_of st k
  else buffer_of st k.
Proof.
  unfold update_state. destruct (0 <? recvd)%Z; [|reflexivity].
  unfold buffer_of at 1. cbn [record_transfer update_bandwidth_estimate buffers].
  apply (buffer_of_insert st).
Qed.

Lemma transfer_credit_positive (duration : Q) (size_bytes recvd : Z) :
  0 < duration -> (0 < recvd)%Z ->
  0 < duration * (Py.float recvd / Py.float (Z.max 1 size_bytes)).
Proof.
  intros Hd Hr. unfold Py.float.
  apply Qmult_lt_0_compat; [exact Hd|].
  apply Qlt_shift_div_l.
  - change 0 with (inject_Z 0). rewrite <- Zlt_Qlt. lia.
  - rewrite Qmult_0_l. change 0 with (inject_Z 0). now rewrite <- Zlt_Qlt.
Qed.

Lemma update_state_nonneg (full_sid base_id : string) (duration bitrate : Q)
    (size_bytes recvd : Z) (elapsed t1 t2 t3 t4 : Q) (st : State) :
  0 < duration -> buffers_nonneg st ->
  buffers_nonneg (update_state full_sid base_id duration bitrate size_bytes recvd
                    elapsed t1 t2 t3 t4 st).
Proof.
  intros Hd H k. rewrite update_state_buffer.
  destruct (Z.ltb_spec 0 recvd) as [Hr|_]; [|apply H].
  destruct (decide _); [|apply H].
  pose proof (transfer_credit_positive duration size_bytes recvd Hd Hr).
  pose proof (H base_id). lra.
Qed.

Lemma update_state_index_stall (full_sid base_id : string) (duration bitrate : Q)
    (size_bytes recvd : Z) (elapsed t1 t2 t3 t4 : Q) (st : State) :
  let st' := update_state full_sid base_id duration bitrate size_bytes recvd
               elapsed t1 t2 t3 t4 st in
  active_video_index st' = active_video_index st /\
  stall_time st' = stall_time st.
Proof.
  cbn zeta. unfold update_state. now destruct (0 <? recvd)%Z.
Qed.

(** A worker changes the shared state only in its update block. *)
Lemma worker_step_state (env : Env) (st : State) (w : Worker) :
  (worker_step env st w).1.1 = st \/
  exists chunk rest bitrate size_bytes recvd,
    w_chunks w = chunk :: rest /\
    w_phase w = PUpdate bitrate size_bytes recvd /\
    (worker_step env st w).1.1 =
      update_state (w_full_sid w) (base_id_of (w_full_sid w))
        (video_duration_sec chunk) bitrate size_bytes recvd
        (env_elapsed env) (env_t_sim env) (env_t_series env)
        (env_t_first env) (env_t_last env) st.
Proof.
  unfold worker_step. destruct (w_chunks w) as [|chunk rest]; [now left|].
  destruct (w_phase w) as [| |br sz rc|br sz rc|].
  - destruct (gate_check _ _ _ _); now left.
  - destruct (env_connect_ok env); now left.
  - destruct (_ <? _)%Z; [|now left].
    destruct (_ <? _)%Z; [now left|].
    destruct (env_recv env); now left.
  - right. now exists chunk, rest, br, sz, rc.
  - now left.
Qed.

(** A step never adds chunks to a worker. *)
Lemma worker_step_chunks (env : Env) (st : State) (w : Worker) (P : Event -> Prop) :
  Forall P (w_chunks w) -> Forall P (w_chunks (worker_step env st w).1.2).
Proof.
  intros H. unfold worker_step. destruct (w_chunks w) as [|chunk rest] eqn:Hc.
  { constructor. }
  destruct (w_phase w) as [| |br sz rc|br sz rc|]; cbn.
  - destruct (gate_check _ _ _ _); cbn; rewrite ?Hc; auto.
  - destruct (env_connect_ok env); cbn; now rewrite Hc.
  - destruct (_ <? _)%Z; [|cbn; now rewrite Hc].
    destruct (_ <? _)%Z; [cbn; auto|].
    destruct (env_recv env); cbn; now rewrite Hc.
  - rewrite Hc. cbn. now apply Forall_inv_tail in H.
  - now rewrite Hc.
Qed.

Lemma sys_step_worker_state (i : nat) (env : Env) (sys : System) :
  sys_state (sys_step (EvWorker i env) sys) =
  match sys_workers sys !! i with
  | Some w => (worker_step env (sys_state sys) w).1.1
  | None => sys_state sys
  end.
Proof.
  cbn [sys_step]. destruct (sys_workers sys !! i) as [w|]; [|reflexivity].
  now destruct (worker_step env (sys_state sys) w) as [[st w1] acts].
Qed.

Lemma sys_step_worker_list (i : nat) (env : Env) (sys : System) :
  sys_workers (sys_step (EvWorker i env) sys) =
  match sys_workers sys !! i with
  | Some w => <[i := (worker_step env (sys_state sys) w).1.2]> (sys_workers sys)
  | None => sys_workers sys
  end.
Proof.
  cbn [sys_step]. destruct (sys_workers sys !! i) as [w|]; [|reflexivity].
  now destruct (worker_step env (sys_state sys) w) as [[st w1] acts].
Qed.

Lemma sys_step_worker_clock (i : nat) (env : Env) (sys : System) :
  sys_last_real_time (sys_step (EvWorker i env) sys) = sys_last_real_time sys.
Proof.
  cbn [sys_step]. destruct (sys_workers sys !! i) as [w|]; [|reflexivity].
  now destruct (worker_step env (sys_state sys) w) as [[st w1] acts].
Qed.

(** The step of a worker that stands before its update block. *)
Lemma sys_step_update (i : nat) (env : Env) (sys : System) (w : Worker)
    (chunk : Event) (rest : list Event) (bitrate : Q) (size_bytes recvd : Z) :
  sys_workers sys !! i = Some w ->
  w_chunks w = chunk :: rest ->
  w_phase w = PUpdate bitrate size_bytes recvd ->
  sys_state (sys_step (EvWorker i env) sys) =
  update_state (w_full_sid w) (base_id_of (w_full_sid w))
    (video_duration_sec chunk) bitrate size_bytes recvd
    (env_elapsed env) (env_t_sim env) (env_t_series env)
    (env_t_first env) (env_t_last env) (sys_state sys).
Proof.
  intros Hw Hc Hp. rewrite sys_step_worker_state, Hw.
  unfold worker_step. now rewrite Hc, Hp.
Qed.


(** ** Buffers stay non-negative *)

Lemma initial_buffers_nonneg (now : Q) (order : list string) (swipes : gmap string Q) :
  buffers_nonneg (initial_state now order swipes).
Proof.
  intros k. unfold buffer_of. cbn. rewrite lookup_empty. cbn. lra.
Qed.

Lemma sys_step_nonneg (ev : SysEvent) (sys : System) :
  buffers_nonneg (sys_state sys) -> durations_positive (sys_workers sys) ->
  buffers_nonneg (sys_state (sys_step ev sys)) /\
  durations_positive (sys_workers (sys_step ev sys)).
Proof.
  intros Hb Hd. destruct ev as [now|i env].
  - cbn. split; [now apply tick_locked_nonneg|exact Hd].
  - rewrite sys_step_worker_state, sys_step_worker_list.
    destruct (sys_workers sys !! i) as [w|] eqn:Hw; [|now split].
    pose proof (Forall_lookup_1 _ _ _ _ Hd Hw) as Hchunks. cbn beta in Hchunks.
    split.
    + destruct (worker_step_state env (sys_state sys) w)
        as [->|(chunk & rest & br & sz & rc & Hc & _ & ->)]; [exact Hb|].
      apply update_state_nonneg; [|exact Hb].
      rewrite Hc in Hchunks. now apply Forall_inv in Hchunks.
    + apply Forall_insert; [exact Hd|]. now apply worker_step_chunks.
Qed.

Lemma sys_run_nonneg (evs : list SysEvent) (sys : System) :
  buffers_nonneg (sys_state sys) -> durations_positive (sys_workers sys) ->
  buffers_nonneg (sys_state (sys_run evs sys)) /\
  durations_positive (sys_workers (sys_run evs sys)).
Proof.
  revert sys. induction evs as [|ev evs IH]; intros sys Hb Hd; [now split|].
  cbn. destruct (sys_step_nonneg ev sys Hb Hd) as [Hb1 Hd1]. now apply IH.
Qed.

(** The drain of one tick, on a non-negative buffer and for a clock that
    did not go back: the active buffer loses [min(buffer, delta)]. *)
Lemma tick_drains_min (now last : Q) (st : State) :
  buffers_nonneg st -> 0 <= now - last ->
  let a := active_base_id (advance_active (now - start_time st) st) in
  buffer_of (playback_tick now last st).2 a
  == buffer_of st a - Qmin (buffer_of st a) (now - last).
Proof.
  intros Hb Hdelta a. cbn [playback_tick snd].
  rewrite tick_locked_buffer, drain_or_stall_buffer. fold a.
  assert (buffer_of (advance_active (now - start_time st) st) a = buffer_of st a)
    as -> by (unfold buffer_of; now rewrite advance_active_buffers).
  pose proof (Hb a) as Ha.
  destruct (Q.min_spec (buffer_of st a) (now - last)) as [[? ->]|[? ->]];
    case_ltb.
  - rewrite decide_True by reflexivity. rewrite max2_Qmax.
    rewrite Q.max_l by lra. lra.
  - lra.
  - rewrite decide_True by reflexivity. rewrite max2_Qmax.
    rewrite Q.max_r by lra. lra.
  - lra.
Qed.

(** C5.  Along every run whose chunks have positive durations, every
    buffer level is non-negative after every clock tick and every worker
    update; a tick takes [min(buffer, delta)] off the active buffer, and an
    update adds the non-negative credit
    [duration * (received_bytes / expected_bytes)]. *)
Theorem buffers_never_negative (evs : list SysEvent) (sys : System) :
  buffers_nonneg (sys_state sys) ->
  durations_positive (sys_workers sys) ->
  let sys' := sys_run evs sys in
  let st := sys_state sys' in
  buffers_nonneg st /\
  (forall now,
     0 <= now - sys_last_real_time sys' ->
     let a := active_base_id (advance_active (now - start_time st) st) in
     buffer_of (sys_state (sys_step (EvTick now) sys')) a
     == buffer_of st a - Qmin (buffer_of st a) (now - sys_last_real_time sys')) /\
  (forall i env w chunk rest bitrate size_bytes recvd,
     sys_workers sys' !! i = Some w ->
     w_chunks w = chunk :: rest ->
     w_phase w = PUpdate bitrate size_bytes recvd ->
     let base := base_id_of (w_full_sid w) in
     let credit :=
       if (0 <? recvd)%Z
       then video_duration_sec chunk
            * (Py.float recvd / Py.float (Z.max 1 size_bytes))
       else 0 in
     0 <= credit /\
     buffer_of (sys_state (sys_step (EvWorker i env) sys')) base
     == buffer_of st base + credit).
Proof.
  intros Hb Hd sys' st.
  destruct (sys_run_nonneg evs sys Hb Hd) as [Hb' Hd']. fold sys' in Hb', Hd'.
  split; [exact Hb'|]. split.
  - intros now Hdelta a. now apply tick_drains_min.
  - intros i env w chunk rest br sz rc Hw Hc Hp base credit.
    pose proof (Forall_lookup_1 _ _ _ _ Hd' Hw) as Hpos. cbn beta in Hpos.
    rewrite Hc in Hpos. apply Forall_inv in Hpos.
    rewrite (sys_step_update i env sys' w chunk rest br sz rc Hw Hc Hp).
    rewrite update_state_buffer. fold base. fold st. subst credit.
    destruct (Z.ltb_spec 0 rc) as [Hr|_].
    + rewrite decide_True by reflexivity.
      pose proof (transfer_credit_positive _ sz rc Hpos Hr). split; [lra|reflexivity].
    + split; [lra|ring].
Qed.

(** ** Active index and stall time never go back *)

Lemma drain_or_stall_index (delta : Q) (st : State) :
  active_video_index (drain_or_stall delta st) = active_video_index st.
Proof. unfold drain_or_stall. now destruct (Py.ltb 0 _). Qed.

Lemma drain_or_stall_stall (delta : Q) (st : State) :
  stall_time (drain_or_stall delta st) = stall_time st \/
  stall_time (drain_or_stall delta st) = stall_time st + delta.
Proof. unfold drain_or_stall. destruct (Py.ltb 0 _); [now left|now right]. Qed.

Lemma sys_step_advances (ev : SysEvent) (sys : System) :
  clock_monotone (sys_last_real_time sys) [ev] ->
  step_advances ev sys (sys_step ev sys).
Proof.
  intros Hclock. destruct ev as [now|i env]; unfold step_advances; cbn zeta.
  - cbn in Hclock. destruct Hclock as [Hle _].
    cbn [sys_step playback_tick sys_state].
    unfold tick_locked. cbn [log_buffer active_video_index stall_time].
    rewrite drain_or_stall_index. split.
    + destruct (advance_active_index (now - start_time (sys_state sys)) (sys_state sys))
        as [H|(H & next_sid & Hnext & _ & Hstart)]; [now left|].
      right. split; [exact H|]. now exists now, next_sid.
    + destruct (drain_or_stall_stall (now - sys_last_real_time sys)
                  (advance_active (now - start_time (sys_state sys)) (sys_state sys)))
        as [H|H]; rewrite advance_active_stall in H; [now left|].
      right. exists now. split; [reflexivity|]. split; [lra|exact H].
  - rewrite sys_step_worker_state.
    destruct (sys_workers sys !! i) as [w|]; [|split; now left].
    destruct (worker_step_state env (sys_state sys) w)
      as [->|(chunk & rest & br & sz & rc & _ & _ & ->)]; [split; now left|].
    destruct (update_state_index_stall (w_full_sid w) (base_id_of (w_full_sid w))
                (video_duration_sec chunk) br sz rc (env_elapsed env) (env_t_sim env)
                (env_t_series env) (env_t_first env) (env_t_last env) (sys_state sys))
      as [-> ->].
    split; now left.
Qed.

Lemma step_advances_le (ev : SysEvent) (before after : System) :
  step_advances ev before after ->
  (active_video_index (sys_state before) <= active_video_index (sys_state after))%nat /\
  stall_time (sys_state before) <= stall_time (sys_state after).
Proof.
  unfold step_advances. cbn zeta. intros [Hidx Hstall]. split.
  - destruct Hidx as [->|[-> _]]; lia.
  - destruct Hstall as [->|(now & _ & Hle & ->)]; [apply Qle_refl|lra].
Qed.

Lemma clock_after_step (ev : SysEvent) (evs : list SysEvent) (sys : System) :
  clock_monotone (sys_last_real_time sys) (ev :: evs) ->
  clock_monotone (sys_last_real_time sys) [ev] /\
  clock_monotone (sys_last_real_time (sys_step ev sys)) evs.
Proof.
  destruct ev as [now|i env]; cbn [clock_monotone].
  - intros [Hle Hrest]. now cbn.
  - intros Hrest. now rewrite sys_step_worker_clock.
Qed.







(** ** Byte accounting *)

Lemma per_stream_total_add (m : gmap string Z) (k : string) (r : Z) :
  per_stream_total (<[k := (default 0 (m !! k) + r)%Z]> m)
  = (per_stream_total m + r)%Z.
Proof.
  unfold per_stream_total.
  destruct (m !! k) as [v|] eqn:Hk; cbn [default from_option].
  - rewrite <- (insert_delete_eq m k).
    rewrite map_fold_insert_L; [|intros; lia|apply lookup_delete_eq].
    rewrite (map_fold_delete_L _ _ k v m); [unfold id; lia|intros; lia|exact Hk].
  - rewrite map_fold_insert_L; [lia|intros; lia|exact Hk].
Qed.

(** The update block adds the received bytes to both counters. *)
Lemma update_state_bytes (full_sid base_id : string) (duration bitrate : Q)
    (size_bytes recvd : Z) (elapsed t1 t2 t3 t4 : Q) (st : State) :
  let st' := update_state full_sid base_id duration bitrate size_bytes recvd
               elapsed t1 t2 t3 t4 st in
  let added := if (0 <? recvd)%Z then recvd else 0%Z in
  total_bytes st' = (total_bytes st + added)%Z /\
  per_stream_total (per_stream_bytes st')
  = (per_stream_total (per_stream_bytes st) + added)%Z /\
  default 0%Z (per_stream_bytes st' !! full_sid)
  = (default 0%Z (per_stream_bytes st !! full_sid) + added)%Z.
Proof.
  cbn zeta. unfold update_state. destruct (0 <? recvd)%Z.
  - cbn [record_transfer update_bandwidth_estimate total_bytes per_stream_bytes].
    split; [reflexivity|]. split; [apply per_stream_total_add|].
    now rewrite lookup_insert_eq.
  - repeat split; lia.
Qed.

Lemma sys_step_bytes (ev : SysEvent) (sys : System) :
  bytes_conserved (sys_state sys) -> bytes_conserved (sys_state (sys_step ev sys)).
Proof.
  unfold bytes_conserved. intros H. destruct ev as [now|i env].
  - cbn [sys_step playback_tick sys_state]. unfold tick_locked.
    cbn [log_buffer per_stream_bytes total_bytes].
    assert (forall delta st, per_stream_bytes (drain_or_stall delta st) = per_stream_bytes st
                             /\ total_bytes (drain_or_stall delta st) = total_bytes st)
      as Hdrain by (intros; unfold drain_or_stall; now destruct (Py.ltb 0 _)).
    destruct (Hdrain (now - sys_last_real_time sys)
                (advance_active (now - start_time (sys_state sys)) (sys_state sys)))
      as [-> ->].
    destruct (advance_active_bytes (now - start_time (sys_state sys)) (sys_state sys))
      as [-> ->].
    exact H.
  - rewrite sys_step_worker_state.
    destruct (sys_workers sys !! i) as [w|]; [|exact H].
    destruct (worker_step_state env (sys_state sys) w)
      as [->|(chunk & rest & br & sz & rc & _ & _ & ->)]; [exact H|].
    destruct (update_state_bytes (w_full_sid w) (base_id_of (w_full_sid w))
                (video_duration_sec chunk) br sz rc (env_elapsed env) (env_t_sim env)
                (env_t_series env) (env_t_first env) (env_t_last env) (sys_state sys))
      as (-> & -> & _).
    now rewrite H.
Qed.

Lemma sys_run_bytes (evs : list SysEvent) (sys : System) :
  bytes_conserved (sys_state sys) -> bytes_conserved (sys_state (sys_run evs sys)).
Proof.
  revert sys. induction evs as [|ev evs IH]; intros sys H; [exact H|].
  cbn. now apply IH, sys_step_bytes.
Qed.

(** C8.  At every point of every run the per-stream byte counters add up
    to [total_bytes]: an update adds the same received-byte count to the
    worker's own counter and to the shared total in one locked block, and
    no other step touches either. *)
Theorem byte_counters_agree (now clock_start : Q) (order : list string)
    (swipes : gmap string Q) (streams : list (string * list Event))
    (evs : list SysEvent) :
  let sys := sys_run evs (initial_system now clock_start order swipes streams) in
  let st := sys_state sys in
  bytes_conserved st /\
  (forall i env w chunk rest bitrate size_bytes recvd,
     sys_workers sys !! i = Some w ->
     w_chunks w = chunk :: rest ->
     w_phase w = PUpdate bitrate size_bytes recvd ->
     let st' := sys_state (sys_step (EvWorker i env) sys) in
     let added := if (0 <? recvd)%Z then recvd else 0%Z in
     total_bytes st' = (total_bytes st + added)%Z /\
     per_stream_total (per_stream_bytes st')
     = (per_stream_total (per_stream_bytes st) + added)%Z /\
     default 0%Z (per_stream_bytes st' !! w_full_sid w)
     = (default 0%Z (per_stream_bytes st !! w_full_sid w) + added)%Z) /\
  (forall t, let st' := sys_state (sys_step (EvTick t) sys) in
     total_bytes st' = total_bytes st /\
     per_stream_bytes st' = per_stream_bytes st).
Proof.
  intros sys st. split; [|split].
  - apply sys_run_bytes. reflexivity.
  - intros i env w chunk rest br sz rc Hw Hc Hp. cbn zeta.
    rewrite (sys_step_update i env sys w chunk rest br sz rc Hw Hc Hp).
    apply update_state_bytes.
  - intros t. cbn zeta. cbn [sys_step playback_tick sys_state]. unfold tick_locked.
    cbn [log_buffer per_stream_bytes total_bytes]. fold st.
    unfold drain_or_stall. destruct (Py.ltb 0 _);
      cbn [set_buffer set_stall_time total_bytes per_stream_bytes];
      now destruct (advance_active_bytes (t - start_time st) st) as [-> ->].
Qed.

(** ** Transfers that deliver nothing *)

Lemma update_state_zero (full_sid base_id : string) (duration bitrate : Q)
    (size_bytes : Z) (elapsed t1 t2 t3 t4 : Q) (st : State) :
  update_state full_sid base_id duration bitrate size_bytes 0
    elapsed t1 t2 t3 t4 st = st.
Proof. reflexivity. Qed.

(** C10.  When a transfer ends with zero bytes received, the update block
    leaves the shared state as it was, field for field: the byte totals,
    the per-stream counters and timestamps, the buffers, the three time
    series, and, the estimator not being called, the estimate and its
    window; the worker then goes on to its next chunk. *)
Theorem zero_byte_update_is_noop (w : Worker) (chunk : Event)
    (rest : list Event) (bitrate : Q) (size_bytes : Z) (env : Env) (st : State) :
  w_chunks w = chunk :: rest ->
  w_phase w = PUpdate bitrate size_bytes 0 ->
  let st' := (worker_step env st w).1.1 in
  let w' := (worker_step env st w).1.2 in
  st' = st /\
  (total_bytes st' = total_bytes st /\
   per_stream_bytes st' = per_stream_bytes st /\
   per_stream_first_ts st' = per_stream_first_ts st /\
   per_stream_last_ts st' = per_stream_last_ts st /\
   buffers st' = buffers st /\
   throughputs st' = throughputs st /\
   throughput_timeseries st' = throughput_timeseries st /\
   bitrate_timeseries st' = bitrate_timeseries st /\
   buffer_timeseries st' = buffer_timeseries st /\
   app_bandwidth_est st' = app_bandwidth_est st /\
   tp_window st' = tp_window st /\
   last_stall_time st' = last_stall_time st) /\
  w_chunks w' = rest /\ w_phase w' = loop_head rest.
Proof.
  intros Hc Hp. cbn zeta. unfold worker_step. rewrite Hc, Hp. cbn [fst snd].
  rewrite update_state_zero. unfold next_chunk. rewrite Hc. cbn.
  repeat split; reflexivity.
Qed.

Lemma zero_byte_update_is_noop_witness :
  (worker_step sample_env sample_state
     (with_phase sample_worker (PUpdate 1.0 250000 0))).1.1 = sample_state.
Proof.
  exact (proj1 (zero_byte_update_is_noop
                  (with_phase sample_worker (PUpdate 1.0 250000 0))
                  sample_chunk [] 1.0 250000%Z sample_env sample_state
                  eq_refl eq_refl)).
Defined.

(** ** Chunks with a non-positive duration *)

Lemma int_nonpos (x : Q) : x <= 0 -> (Py.int x <= 0)%Z.
Proof.
  unfold Py.int, Qle. cbn. intros H.
  assert (0 <= - Qnum x)%Z as Hneg by lia.
  apply Z.quot_pos with (b := Z.pos (Qden x)) in Hneg; [|lia].
  rewrite Z.quot_opp_l in Hneg by lia. lia.
Qed.

Lemma size_bytes_nonpos (duration bitrate : Q) :
  duration <= 0 -> 0 < bitrate -> (size_bytes_of duration bitrate <= 0)%Z.
Proof.
  intros Hd Hb. apply int_nonpos.
  assert (0 <= (- duration) * bitrate) as Hprod
    by (apply Qmult_le_0_compat; lra).
  apply Qle_shift_div_r; [reflexivity|].
  assert (1e6 == 1000000) as -> by reflexivity. lra.
Qed.


Section ChunkSizeDouble.
#[local] Set Warnings "-inexact-float".

(** The size in doubles against the size in exact arithmetic: for 0.09 s
    at 2.5 Mbps the rounded quotient lies just below 28125 and truncates
    to 28124. *)
Example chunk_size_truncates_rounded_quotient :
  F64.size_bytes_of 0.09 2.5 = Some 28124%Z /\
  size_bytes_of 0.09 2.5 = 28125%Z.
Proof. split; reflexivity. Qed.


End ChunkSizeDouble.

(** ** Fairness index *)

Lemma fold_plus_shift (l : list Q) (a : Q) :
  fold_left Qplus l a == a + fold_left Qplus l 0.
Proof.
  revert a. induction l as [|b l IH]; intros a; cbn [fold_left]; [ring|].
  rewrite (IH (a + b)), (IH (0 + b)). ring.
Qed.

Lemma sum_cons (x : Q) (l : list Q) : Py.sum (x :: l) == x + Py.sum l.
Proof.
  unfold Py.sum. cbn [fold_left]. rewrite fold_plus_shift. ring.
Qed.

Lemma count_cons (x : Q) (l : list Q) : count_of (x :: l) == count_of l + 1.
Proof.
  unfold count_of, Py.float. cbn [length].
  rewrite Nat2Z.inj_succ, <- Z.add_1_r, inject_Z_plus. reflexivity.
Qed.

Lemma squares_cons (x : Q) (l : list Q) :
  squares_of (x :: l) == x * x + squares_of l.
Proof. unfold squares_of. cbn [map]. apply sum_cons. Qed.

Lemma count_nonneg (l : list Q) : 0 <= count_of l.
Proof.
  unfold count_of, Py.float. change 0 with (inject_Z 0).
  rewrite <- Zle_Qle. lia.
Qed.

Lemma square_nonneg (x : Q) : 0 <= x * x.
Proof. unfold Qle. cbn. rewrite Z.mul_1_r. apply Z.square_nonneg. Qed.

Lemma sums_nil :
  Py.sum [] == 0 /\ squares_of [] == 0 /\ count_of [] == 0.
Proof. repeat split; reflexivity. Qed.

(** The sum of the squared distances to [a] is non-negative. *)
Lemma spread_nonneg (l : list Q) (a : Q) :
  0 <= count_of l * (a * a) - 2 * a * Py.sum l + squares_of l.
Proof.
  induction l as [|b l IH].
  - destruct sums_nil as (-> & -> & ->). lra.
  - rewrite count_cons, sum_cons, squares_cons.
    pose proof (square_nonneg (a - b)) as Hsq. nra.
Qed.

(** Cauchy-Schwarz in the form the index needs. *)
Lemma square_sum_bound (l : list Q) :
  Py.sum l * Py.sum l <= count_of l * squares_of l.
Proof.
  induction l as [|b l IH].
  - destruct sums_nil as (-> & -> & ->). lra.
  - rewrite count_cons, sum_cons, squares_cons.
    pose proof (spread_nonneg l b). nra.
Qed.

Lemma positive_sums (l : list Q) :
  l <> [] -> Forall (fun r => 0 < r) l ->
  0 < Py.sum l /\ 0 < squares_of l /\ 0 < count_of l.
Proof.
  intros Hne Hpos. induction Hpos as [|x l Hx Hl IH]; [congruence|].
  rewrite count_cons, sum_cons, squares_cons.
  pose proof (count_nonneg l) as Hn.
  assert (0 < x * x) by nra.
  destruct l as [|y l'].
  - destruct sums_nil as (-> & -> & ->). repeat split; lra.
  - destruct IH as (H1 & H2 & H3); [discriminate|]. repeat split; lra.
Qed.

Lemma equal_rates_sums (l : list Q) (c : Q) :
  Forall (fun r => r == c) l ->
  Py.sum l == count_of l * c /\ squares_of l == count_of l * (c * c).
Proof.
  induction 1 as [|x l Hx Hl [IH1 IH2]].
  - destruct sums_nil as (-> & -> & ->). split; ring.
  - rewrite count_cons, sum_cons, squares_cons, IH1, IH2, Hx. split; ring.
Qed.

Lemma fairness_of_many (rates : list Q) :
  (2 <= length rates)%nat ->
  0 < count_of rates * squares_of rates ->
  fairness_of rates
  == (Py.sum rates * Py.sum rates) / (count_of rates * squares_of rates).
Proof.
  intros Hlen Hden. unfold fairness_of.
  destruct (Nat.leb_spec 2 (length rates)); [|lia].
  fold (count_of rates) (squares_of rates).
  apply ltb_true in Hden. rewrite Hden.
  apply Qmult_comp; [|reflexivity]. cbn. ring.
Qed.

Lemma fairness_of_few (rates : list Q) :
  (length rates < 2)%nat -> fairness_of rates = 1.0.
Proof.
  intros Hlen. unfold fairness_of.
  destruct (Nat.leb_spec 2 (length rates)); [lia|reflexivity].
Qed.

(** Jain's index on a non-empty list of positive rates. *)
Lemma jain_bounds (rates : list Q) :
  rates <> [] -> Forall (fun r => 0 < r) rates ->
  0 < fairness_of rates /\ fairness_of rates <= 1 /\
  ((forall r r', In r rates -> In r' rates -> r == r') ->
   fairness_of rates == 1).
Proof.
  intros Hne Hpos.
  destruct (le_lt_dec 2 (length rates)) as [Hlen|Hlen].
  2: { rewrite (fairness_of_few rates Hlen). repeat split; try reflexivity; lra. }
  destruct (positive_sums rates Hne Hpos) as (Hs & Hq & Hn).
  assert (0 < count_of rates * squares_of rates) as Hden by nra.
  rewrite (fairness_of_many rates Hlen Hden).
  split; [|split].
  - apply Qlt_shift_div_l; [exact Hden|]. nra.
  - apply Qle_shift_div_r; [exact Hden|].
    pose proof (square_sum_bound rates). lra.
  - intros Heq. destruct rates as [|c l]; [congruence|].
    assert (Forall (fun r => r == c) (c :: l)) as Hall.
    { apply Forall_forall. intros r Hr. apply list_elem_of_In in Hr.
      apply Heq; [exact Hr|now left]. }
    destruct (equal_rates_sums _ c Hall) as [E1 E2].
    assert (Py.sum (c :: l) * Py.sum (c :: l)
            == count_of (c :: l) * squares_of (c :: l)) as ->
      by (rewrite E1, E2; ring).
    apply Qmult_inv_r. lra.
Qed.

(** The ghost filter lets through positive rates only. *)
Lemma per_stream_rate_positive (st : State) (sid : string) (b_count : Z) (r : Q) :
  per_stream_rate st sid b_count = Some r -> 0 < r.
Proof.
  unfold per_stream_rate.
  destruct (Py.ltb 0.1 _) eqn:Hdur; [|discriminate].
  destruct (Z.ltb_spec 1000 b_count) as [Hb|]; [|discriminate].
  cbn [andb]. intros [= <-]. apply ltb_true in Hdur.
  apply Qlt_shift_div_l.
  - assert (1e6 == 1000000) as -> by reflexivity. lra.
  - rewrite Qmult_0_l. unfold Py.float.
    change 0 with (inject_Z 0). rewrite <- Zlt_Qlt. lia.
Qed.

Lemma surviving_rates_positive (st : State) :
  Forall (fun r => 0 < r) (surviving_rates st).
Proof.
  apply Forall_forall. intros r Hr. unfold surviving_rates in Hr.
  apply list_elem_of_fmap in Hr as ([sid r'] & -> & Hin). cbn.
  apply elem_of_map_to_list in Hin. unfold per_stream_rates in Hin.
  rewrite map_lookup_imap in Hin.
  destruct (per_stream_bytes st !! sid) as [b|]; [|discriminate].
  cbn in Hin. now apply per_stream_rate_positive in Hin.
Qed.

(** Three streams with the same rate, 262500 bytes in 2 s each (1.05
    Mbps): the index computed in binary64 is 1.0000000000000004, above 1
    and not 1.0, with the plain and with the compensated [sum] alike. *)
Lemma equal_rates_exceed_one_in_binary64 :
  let r := F64.sample_rate in
  F64.per_stream_rate 262500 1 3 = Some r /\
  PrimFloat.ltb 0 r = true /\
  F64.fairness_of F64.sum_compensated [r; r; r]
  = F64.fairness_of F64.sum [r; r; r] /\
  PrimFloat.ltb 1 (F64.fairness_of F64.sum [r; r; r]) = true /\
  PrimFloat.eqb (F64.fairness_of F64.sum [r; r; r]) 1 = false.
Proof. cbn zeta. repeat split; vm_compute; reflexivity. Qed.

(** Two equal rates of 8e-303: their squares underflow to 0 in binary64,
    the denominator is not positive and the index is reported as 0. *)
Example equal_rates_underflow_in_binary64 :
  F64.fairness_of F64.sum [F64.tiny_rate; F64.tiny_rate] = 0%float /\
  F64.fairness_of F64.sum_compensated [F64.tiny_rate; F64.tiny_rate] = 0%float.
Proof. split; vm_compute; reflexivity. Qed.

(** C7, amended.  The rates that survive the ghost filter are positive;
    when there is at least one, the fairness index taken in exact
    arithmetic lies in (0, 1], and it is 1 when all surviving rates are
    equal; with exactly one surviving rate the reported value is the
    constant 1.0, in exact and in binary64 arithmetic alike.  Nothing is
    stated of the binary64 value for two or more rates: it can exceed 1,
    and it is 0 where the squares underflow. *)
Theorem fairness_in_unit_interval (st : State) :
  surviving_rates st <> [] ->
  Forall (fun r => 0 < r) (surviving_rates st) /\
  0 < fairness_index st /\ fairness_index st <= 1 /\
  ((forall r r', In r (surviving_rates st) -> In r' (surviving_rates st) -> r == r') ->
   fairness_index st == 1) /\
  (length (surviving_rates st) = 1%nat ->
   fairness_index st = 1.0 /\
   forall sum r, F64.fairness_of sum [r] = 1%float).
Proof.
  intros Hne. split; [apply surviving_rates_positive|].
  destruct (jain_bounds (surviving_rates st) Hne (surviving_rates_positive st))
    as (Hlo & Hhi & Heq).
  split; [exact Hlo|]. split; [exact Hhi|]. split; [exact Heq|].
  intros Hlen. split; [|reflexivity].
  apply fairness_of_few. lia.
Qed.

(** C3.  The fairness value for fewer than two surviving streams: 1.0 for
    exactly one, and, where the specification asks for a null value, also 1.0 for
    none; the earlier replayer under [p0_results] yields [None] there. *)
Theorem fairness_of_no_survivor :
  (forall r, fairness_of [r] = 1.0) /\
  surviving_rates (initial_state 0 [] ∅) = [] /\
  fairness_index (initial_state 0 [] ∅) = 1.0 /\
  P0.fairness_index_of (surviving_rates (initial_state 0 [] ∅)) = None.
Proof.
  split; [reflexivity|]. split; [reflexivity|]. split; reflexivity.
Qed.

Example sample_run_buffer :
  buffer_of (sys_state (sys_run sample_events sample_system)) "1" == 0
  /\ total_bytes (sys_state (sys_run sample_events sample_system)) = 4096%Z.
Proof. split; reflexivity. Qed.

Lemma buffers_never_negative_witness :
  buffers_nonneg (sys_state (sys_run sample_events sample_system)).
Proof.
  refine (proj1 (buffers_never_negative sample_events sample_system _ _)).
  - apply initial_buffers_nonneg.
  - repeat constructor.
Defined.

Example sample_fairness : fairness_index sample_report_state == 0.9.
Proof. reflexivity. Qed.

Lemma fairness_in_unit_interval_witness :
  0 < fairness_index sample_report_state /\ fairness_index sample_report_state <= 1.
Proof.
  destruct (fairness_in_unit_interval sample_report_state) as (_ & Hlo & Hhi & _).
  - vm_compute. discriminate.
  - split; [exact Hlo|exact Hhi].
Defined.

(** * Further properties *)

(** ** Workers keep a well-formed transfer *)

Lemma worker_step_ok (env : Env) (st : State) (w : Worker) :
  worker_ok w -> worker_ok (worker_step env st w).1.2.
Proof.
  intros Hok. unfold worker_step.
  destruct (w_chunks w) as [|chunk rest] eqn:Hc; [exact I|].
  unfold worker_ok in Hok. rewrite Hc in Hok.
  destruct (w_phase w) as [| |br sz rc|br sz rc|] eqn:Hp.
  - destruct (gate_check _ _ _ _); cbn; unfold worker_ok; cbn; rewrite ?Hp; exact I.
  - assert (transfer_ok (video_duration_sec chunk)
              (get_abr_decision st (w_my_idx w =? Z.of_nat (active_video_index st))%Z
                 (base_id_of (w_full_sid w)))
              (size_bytes_of (video_duration_sec chunk)
                 (get_abr_decision st (w_my_idx w =? Z.of_nat (active_video_index st))%Z
                    (base_id_of (w_full_sid w)))) 0) as Hnew.
    { split; [apply abr_decision_on_ladder|]. split; [reflexivity|]. split; lia. }
    destruct (env_connect_ok env); cbn; unfold worker_ok; cbn; now rewrite Hc.
  - destruct Hok as (Hbr & Hsz & Hrc & Hpos).
    destruct (Z.ltb_spec rc sz) as [Hlt|Hge].
    + destruct (_ <? _)%Z; [exact I|].
      destruct (env_recv env) as [n| |]; cbn; unfold worker_ok; cbn; rewrite Hc;
        (split; [exact Hbr|split; [exact Hsz|]]); try (split; [exact Hrc|exact Hpos]).
      unfold CHUNK_SIZE in *. split; lia.
    + cbn. unfold worker_ok. cbn. rewrite Hc.
      exact (conj Hbr (conj Hsz (conj Hrc Hpos))).
  - cbn. unfold worker_ok, next_chunk, loop_head. cbn. rewrite Hc. cbn.
    now destruct rest.
  - cbn. unfold worker_ok. now rewrite Hp.
Qed.

Lemma spawn_worker_ok (evs : list Event) (sid : string) (st : State) :
  worker_ok (spawn_worker evs sid st).
Proof.
  unfold worker_ok, spawn_worker, loop_head. cbn.
  now destruct (download_chunks evs).
Qed.

Lemma initial_workers_ok (now clock_start : Q) (order : list string)
    (swipes : gmap string Q) (streams : list (string * list Event)) :
  Forall worker_ok (sys_workers (initial_system now clock_start order swipes streams)).
Proof.
  cbn. apply Forall_forall. intros w Hw.
  apply list_elem_of_fmap in Hw as (s & -> & _). apply spawn_worker_ok.
Qed.

(** The clock touches the buffers, the stall time, the active stream and
    the buffer series, and nothing else. *)
Lemma tick_locked_frame (delta sim_time : Q) (st : State) :
  let st' := tick_locked delta sim_time st in
  start_time st' = start_time st /\
  total_bytes st' = total_bytes st /\
  stream_order st' = stream_order st /\
  swipe_map st' = swipe_map st /\
  throughputs st' = throughputs st /\
  throughput_timeseries st' = throughput_timeseries st /\
  bitrate_timeseries st' = bitrate_timeseries st /\
  app_bandwidth_est st' = app_bandwidth_est st /\
  tp_window st' = tp_window st /\
  last_stall_time st' = last_stall_time st /\
  per_stream_bytes st' = per_stream_bytes st /\
  per_stream_first_ts st' = per_stream_first_ts st /\
  per_stream_last_ts st' = per_stream_last_ts st.
Proof.
  cbn zeta. unfold tick_locked, drain_or_stall, advance_active.
  destruct (_ <? _)%nat; [destruct (_ !! _); [destruct (Py.geb _ _)|]|];
    destruct (Py.ltb 0 _); cbn; repeat split; reflexivity.
Qed.

(** An invariant of the state that the tick and the update of a
    well-formed transfer keep holds along every run. *)
Lemma run_state_invariant (P : State -> Prop) :
  (forall delta sim_time st, P st -> P (tick_locked delta sim_time st)) ->
  (forall sid duration bitrate size_bytes recvd elapsed t1 t2 t3 t4 st,
      transfer_ok duration bitrate size_bytes recvd -> (0 < recvd)%Z -> P st ->
      P (update_state sid (base_id_of sid) duration bitrate size_bytes recvd
           elapsed t1 t2 t3 t4 st)) ->
  forall evs sys,
    Forall worker_ok (sys_workers sys) -> P (sys_state sys) ->
    P (sys_state (sys_run evs sys)) /\
    Forall worker_ok (sys_workers (sys_run evs sys)).
Proof.
  intros Htick Hupd evs. induction evs as [|ev evs IH]; intros sys Hws HP; [now split|].
  cbn [sys_run fold_left]. apply IH.
  - destruct ev as [now|i env]; [exact Hws|].
    rewrite sys_step_worker_list.
    destruct (sys_workers sys !! i) as [w|] eqn:Hw; [|exact Hws].
    apply Forall_insert; [exact Hws|].
    apply worker_step_ok. exact (Forall_lookup_1 _ _ _ _ Hws Hw).
  - destruct ev as [now|i env].
    + cbn. now apply Htick.
    + rewrite sys_step_worker_state.
      destruct (sys_workers sys !! i) as [w|] eqn:Hw; [|exact HP].
      pose proof (Forall_lookup_1 _ _ _ _ Hws Hw) as Hok.
      destruct (worker_step_state env (sys_state sys) w)
        as [->|(chunk & rest & br & sz & rc & Hc & Hp & ->)]; [exact HP|].
      unfold worker_ok in Hok. rewrite Hp, Hc in Hok.
      destruct (Z.ltb_spec 0 rc) as [Hpos|Hle].
      * now apply Hupd.
      * unfold update_state. destruct (Z.ltb_spec 0 rc); [lia|exact HP].
Qed.

(** ** The estimate stays within its clamp *)

Lemma estimate_clamped (st : State) (tp : Q) :
  0.1 <= app_bandwidth_est (update_bandwidth_estimate st tp) <= 100.
Proof.
  cbn [update_bandwidth_estimate app_bandwidth_est].
  rewrite max2_Qmax, min2_Qmin. split.
  - apply Q.le_max_l.
  - apply Q.max_lub; [lra|].
    apply Qle_trans with (y := 100.0); [apply Q.le_min_r|lra].
Qed.

Lemma update_state_estimate (sid base : string) (duration bitrate : Q)
    (size_bytes recvd : Z) (elapsed t1 t2 t3 t4 : Q) (st : State) :
  (0 < recvd)%Z ->
  0.1 <= app_bandwidth_est (update_state sid base duration bitrate size_bytes recvd
                              elapsed t1 t2 t3 t4 st) <= 100.
Proof.
  intros Hr. unfold update_state. destruct (Z.ltb_spec 0 recvd); [|lia].
  unfold record_transfer. apply estimate_clamped.
Qed.

(** X1.  In every state of every run the bandwidth estimate lies between
    0.1 and 100 Mbps, whatever throughput samples the transfers produce. *)
Theorem estimate_always_in_range (now clock_start : Q) (order : list string)
    (swipes : gmap string Q) (streams : list (string * list Event))
    (evs : list SysEvent) :
  let st := sys_state (sys_run evs (initial_system now clock_start order swipes streams)) in
  0.1 <= app_bandwidth_est st <= 100.
Proof.
  cbn zeta.
  apply (run_state_invariant (fun st => 0.1 <= app_bandwidth_est st <= 100)).
  - intros delta sim_time st H.
    destruct (tick_locked_frame delta sim_time st) as (_&_&_&_&_&_&_&->&_). exact H.
  - intros. now apply update_state_estimate.
  - apply initial_workers_ok.
  - cbn. lra.
Qed.

(** ** Bounds on one estimator update *)

Lemma fold_Qmin_le (l : list Q) (x y : Q) :
  In y (x :: l) -> fold_right Qmin x l <= y.
Proof.
  induction l as [|a l IH]; cbn [fold_right].
  - intros [<-|[]]. apply Qle_refl.
  - intros [<-|[<-|Hy]].
    + apply Qle_trans with (y := fold_right Qmin x l); [apply Q.le_min_r|].
      apply IH. now left.
    + apply Q.le_min_l.
    + apply Qle_trans with (y := fold_right Qmin x l); [apply Q.le_min_r|].
      apply IH. now right.
Qed.

Lemma push_window_has_sample (w : list Q) (tp : Q) : In tp (push_window w tp).
Proof.
  unfold push_window. destruct (_ <? _)%nat eqn:E.
  - destruct w as [|a w']; [discriminate|]. cbn. apply in_or_app. right. now left.
  - apply in_or_app. right. now left.
Qed.

Lemma safe_floor_le_sample (w : list Q) (tp : Q) :
  safe_floor_of (push_window w tp) tp <= tp.
Proof.
  pose proof (push_window_has_sample w tp) as Hin.
  destruct (push_window w tp) as [|x l] eqn:E; [destruct Hin|].
  cbn [safe_floor_of]. rewrite min_from_fold. now apply fold_Qmin_le.
Qed.

(** The value before the stall cap and the final clamp is at most the
    risk factor times the larger of the old estimate and the sample. *)
Lemma risk_scaled_blend_bound (st : State) (tp : Q) :
  0 <= Qmax (app_bandwidth_est st) tp ->
  let buf := buffer_of st (active_base_id st) in
  (0.5 * ((1 - ewma_alpha buf) * app_bandwidth_est st + ewma_alpha buf * tp)
   + 0.5 * safe_floor_of (push_window (tp_window st) tp) tp) * risk_factor_of buf
  <= risk_factor_of buf * Qmax (app_bandwidth_est st) tp.
Proof.
  intros HM buf.
  pose proof (safe_floor_le_sample (tp_window st) tp) as Hfloor.
  pose proof (Q.le_max_l (app_bandwidth_est st) tp) as H1.
  pose proof (Q.le_max_r (app_bandwidth_est st) tp) as H2.
  unfold ewma_alpha, risk_factor_of. repeat case_ltb; lra.
Qed.

Lemma risk_factor_range (buf : Q) :
  0.7 <= risk_factor_of buf <= 1.1 /\ (buf < 12 -> risk_factor_of buf <= 1).
Proof. unfold risk_factor_of. repeat case_ltb; split; try split; lra. Qed.

(** X2.  In exact arithmetic, one update raises the estimate to at most
    1.1 times the larger of the previous estimate and the new sample, and
    to at most that larger value itself while the active buffer is below
    12 s.  (The doubles of the code can pass the bound by a rounding
    error.) *)
Theorem estimate_growth_bound (st : State) (tp : Q) :
  0 <= tp ->
  0.1 <= app_bandwidth_est st ->
  let est' := app_bandwidth_est (update_bandwidth_estimate st tp) in
  est' <= 1.1 * Qmax (app_bandwidth_est st) tp /\
  (buffer_of st (active_base_id st) < 12 -> est' <= Qmax (app_bandwidth_est st) tp).
Proof.
  intros Htp Hest.
  pose proof (Q.le_max_l (app_bandwidth_est st) tp) as H1.
  assert (0 <= Qmax (app_bandwidth_est st) tp) as HM by lra.
  pose proof (risk_scaled_blend_bound st tp HM) as Hv. cbn zeta in Hv.
  destruct (risk_factor_range (buffer_of st (active_base_id st))) as [[_ Hr] Hr1].
  cbn [update_bandwidth_estimate app_bandwidth_est].
  set (v := (_ + _) * risk_factor_of _) in *.
  assert (Py.max2 0.1
            (Py.min2 (if Py.ltb (last_stall_time st) (stall_time st)
                      then Py.min2 v (tp * 0.8) else v) 100.0) <= Qmax 0.1 v) as Hclamp.
  { rewrite max2_Qmax, min2_Qmin. apply Q.max_le_compat_l.
    apply Qle_trans with (y := if Py.ltb (last_stall_time st) (stall_time st)
                          then Py.min2 v (tp * 0.8) else v); [apply Q.le_min_l|].
    destruct (Py.ltb _ _); [rewrite min2_Qmin; apply Q.le_min_l|apply Qle_refl]. }
  split.
  - apply Qle_trans with (y := Qmax 0.1 v); [exact Hclamp|].
    apply Q.max_lub; [lra|]. nra.
  - intros Hbuf. specialize (Hr1 Hbuf).
    apply Qle_trans with (y := Qmax 0.1 v); [exact Hclamp|].
    apply Q.max_lub; [lra|]. nra.
Qed.

Lemma estimate_growth_bound_witness :
  app_bandwidth_est (update_bandwidth_estimate sample_state 4)
  <= 1.1 * Qmax (app_bandwidth_est sample_state) 4.
Proof.
  refine (proj1 (estimate_growth_bound sample_state 4 _ _)); discriminate.
Defined.

(** X3.  At an update that sees a stall time above the recorded one, the
    new estimate is at most 0.8 times the sample, or the floor 0.1 when
    that is smaller. *)
Theorem stall_caps_estimate (st : State) (tp : Q) :
  last_stall_time st < stall_time st ->
  app_bandwidth_est (update_bandwidth_estimate st tp) <= Qmax 0.1 (0.8 * tp).
Proof.
  intros Hstall. apply ltb_true in Hstall.
  cbn [update_bandwidth_estimate app_bandwidth_est]. rewrite Hstall.
  rewrite max2_Qmax, !min2_Qmin. apply Q.max_le_compat_l.
  apply Qle_trans with (y := Qmin ((0.5 * ((1 - ewma_alpha (buffer_of st (active_base_id st)))
                                        * app_bandwidth_est st
                                        + ewma_alpha (buffer_of st (active_base_id st)) * tp)
                               + 0.5 * safe_floor_of (push_window (tp_window st) tp) tp)
                              * risk_factor_of (buffer_of st (active_base_id st)))
                          (tp * 0.8)); [apply Q.le_min_l|].
  apply Qle_trans with (y := tp * 0.8); [apply Q.le_min_r|lra].
Qed.

Lemma stall_caps_estimate_witness :
  app_bandwidth_est
    (update_bandwidth_estimate (set_stall_time sample_state 0.3) 1)
  <= Qmax 0.1 (0.8 * 1).
Proof.
  apply (stall_caps_estimate (set_stall_time sample_state 0.3) 1). reflexivity.
Defined.

(** ** The window and the series kept by the updates *)

Lemma push_window_last_n (l : list Q) (tp : Q) :
  push_window (last_n TP_WINDOW_LEN l) tp = last_n TP_WINDOW_LEN (l ++ [tp]).
Proof.
  unfold push_window, last_n, TP_WINDOW_LEN.
  rewrite !length_app, length_drop. cbn [length].
  destruct (le_lt_dec 10 (length l)) as [Hlen|Hlen].
  - destruct (Nat.ltb_spec 10 (length l - (length l - 10) + 1)) as [_|H]; [|lia].
    rewrite drop_app_le by lia.
    replace (length l + 1 - 10)%nat with (length l - 10 + 1)%nat by lia.
    rewrite <- (drop_drop l 1 (length l - 10)).
    destruct (drop (length l - 10) l) as [|a d] eqn:E.
    + apply (f_equal length) in E. rewrite length_drop in E. cbn in E. lia.
    + cbn. now rewrite drop_0.
  - destruct (Nat.ltb_spec 10 (length l - (length l - 10) + 1)) as [H|_]; [lia|].
    replace (length l - 10)%nat with 0%nat by lia.
    replace (length l + 1 - 10)%nat with 0%nat by lia.
    now rewrite !drop_0.
Qed.

Lemma update_state_series (sid base : string) (duration bitrate : Q)
    (size_bytes recvd : Z) (elapsed t1 t2 t3 t4 : Q) (st : State) :
  series_aligned st ->
  series_aligned (update_state sid base duration bitrate size_bytes recvd
                    elapsed t1 t2 t3 t4 st).
Proof.
  intros (Hw & Hts & Hlen). unfold update_state.
  destruct (0 <? recvd)%Z; [|now repeat split].
  unfold series_aligned.
  cbn [record_transfer update_bandwidth_estimate tp_window throughputs
         throughput_timeseries bitrate_timeseries].
  split; [|split].
  - rewrite Hw. apply push_window_last_n.
  - rewrite map_app, Hts. reflexivity.
  - rewrite !length_app, Hlen. reflexivity.
Qed.

(** X4.  In every state of every run the estimator's window holds the
    last ten throughput samples (all of them while there are fewer), in
    order; the throughput series carries the same samples, and there is
    one selected bitrate per sample. *)
Theorem window_holds_latest_samples (now clock_start : Q) (order : list string)
    (swipes : gmap string Q) (streams : list (string * list Event))
    (evs : list SysEvent) :
  let st := sys_state (sys_run evs (initial_system now clock_start order swipes streams)) in
  tp_window st = last_n TP_WINDOW_LEN (throughputs st) /\
  (length (tp_window st) <= TP_WINDOW_LEN)%nat /\
  map snd (throughput_timeseries st) = throughputs st /\
  length (bitrate_timeseries st) = length (throughputs st).
Proof.
  cbn zeta.
  destruct (run_state_invariant series_aligned) with
    (evs := evs) (sys := initial_system now clock_start order swipes streams)
    as [(Hw & Hts & Hlen) _].
  - intros delta sim_time st (Hw & Hts & Hlen). unfold series_aligned.
    destruct (tick_locked_frame delta sim_time st)
      as (_&_&_&_&->&->&->&_&->&_). now repeat split.
  - intros. now apply update_state_series.
  - apply initial_workers_ok.
  - now repeat split.
  - split; [exact Hw|]. split; [|now split].
    rewrite Hw. unfold last_n. rewrite length_drop. lia.
Qed.

(** ** Buffers stay non-negative whatever the durations *)

Lemma int_positive (x : Q) : (0 < Py.int x)%Z -> 0 < x.
Proof.
  intros H. apply Qnot_le_lt. intros Hx. apply int_nonpos in Hx. lia.
Qed.

Lemma transfer_duration_positive (duration bitrate : Q) (size_bytes recvd : Z) :
  transfer_ok duration bitrate size_bytes recvd -> (0 < recvd)%Z -> 0 < duration.
Proof.
  intros (Hbr & -> & _ & Hpos) Hr. destruct (Hpos Hr) as [Hsz _].
  apply Qnot_le_lt. intros Hd.
  assert (0 < bitrate) as Hb.
  { cbn in Hbr. repeat (destruct Hbr as [<-|Hbr]; [reflexivity|]). destruct Hbr. }
  pose proof (size_bytes_nonpos duration bitrate Hd Hb). lia.
Qed.

(** X5.  In every state of every run every buffer level is non-negative,
    also when the schedule holds chunks with zero or negative durations:
    such a chunk asks for no bytes, so nothing is ever credited for it. *)
Theorem buffers_nonneg_any_schedule (now clock_start : Q) (order : list string)
    (swipes : gmap string Q) (streams : list (string * list Event))
    (evs : list SysEvent) :
  buffers_nonneg
    (sys_state (sys_run evs (initial_system now clock_start order swipes streams))).
Proof.
  apply (run_state_invariant buffers_nonneg).
  - intros. now apply tick_locked_nonneg.
  - intros sid dur br sz rc el t1 t2 t3 t4 st Hok Hr Hb.
    apply update_state_nonneg; [|exact Hb].
    exact (transfer_duration_positive dur br sz rc Hok Hr).
  - apply initial_workers_ok.
  - apply initial_buffers_nonneg.
Qed.

(** ** The active stream and its index agree *)

Lemma tick_locked_active (delta sim_time : Q) (st : State) :
  active_consistent st -> active_consistent (tick_locked delta sim_time st).
Proof.
  intros H. unfold active_consistent, tick_locked.
  cbn [log_buffer stream_order active_video_index active_base_id].
  assert (forall s, active_consistent s -> active_consistent (drain_or_stall delta s))
    as Hdrain by (intros s Hs; unfold drain_or_stall; now destruct (Py.ltb 0 _)).
  apply Hdrain. clear Hdrain.
  unfold advance_active.
  destruct (_ <? _)%nat; [|exact H].
  destruct (stream_order st !! _) as [next_sid|] eqn:E; [|exact H].
  destruct (Py.geb _ _); [|exact H].
  unfold active_consistent. cbn. now rewrite E.
Qed.

(** X6.  In every state of every run [active_base_id] is the entry of
    [stream_order] at [active_video_index]; the index stays inside the
    list (for an empty schedule it stays 0 with the placeholder id). *)
Theorem active_id_matches_index (now clock_start : Q) (order : list string)
    (swipes : gmap string Q) (streams : list (string * list Event))
    (evs : list SysEvent) :
  let st := sys_state (sys_run evs (initial_system now clock_start order swipes streams)) in
  stream_order st = order /\
  match order !! active_video_index st with
  | Some sid => active_base_id st = sid
  | None => order = [] /\ active_video_index st = 0%nat /\ active_base_id st = "0"%string
  end.
Proof.
  cbn zeta.
  destruct (run_state_invariant
              (fun st => stream_order st = order /\ active_consistent st /\
                         (order = [] -> active_base_id st = "0"%string))) with
    (evs := evs) (sys := initial_system now clock_start order swipes streams)
    as [(Ho & Hc & Hz) _].
  - intros delta sim_time st (Ho & Hc & Hz).
    destruct (tick_locked_frame delta sim_time st) as (_&_&Hord&_).
    split; [now rewrite Hord|]. split; [now apply tick_locked_active|].
    intros Hnil. specialize (Hz Hnil).
    unfold tick_locked, drain_or_stall, advance_active. rewrite Ho, Hnil. cbn.
    now destruct (Py.ltb 0 _).
  - intros sid dur br sz rc el t1 t2 t3 t4 st _ _ (Ho & Hc & Hz).
    unfold update_state. destruct (0 <? rc)%Z; [|now repeat split].
    unfold active_consistent in *. cbn. now repeat split.
  - apply initial_workers_ok.
  - cbn. split; [reflexivity|]. split; [|intros ->; reflexivity].
    unfold active_consistent. cbn. destruct order; now cbn.
  - split; [exact Ho|]. unfold active_consistent in Hc. rewrite Ho in Hc.
    destruct (order !! _); [exact Hc|].
    destruct Hc as [Hnil Hidx]. split; [exact Hnil|]. split; [exact Hidx|now apply Hz].
Qed.

(** ** Selected bitrates and their average *)

Lemma sum_between (l : list Q) (lo hi : Q) :
  Forall (fun x => lo <= x <= hi) l ->
  count_of l * lo <= Py.sum l <= count_of l * hi.
Proof.
  induction 1 as [|x l [Hlo Hhi] _ IH].
  - destruct sums_nil as (-> & _ & ->). lra.
  - rewrite count_cons, sum_cons. lra.
Qed.

Lemma mean_between (l : list Q) (lo hi : Q) :
  l <> [] -> Forall (fun x => lo <= x <= hi) l ->
  lo <= Py.sum l / count_of l <= hi.
Proof.
  intros Hne Hall. pose proof (sum_between l lo hi Hall) as [H1 H2].
  assert (0 < count_of l) as Hn.
  { destruct l as [|x l']; [congruence|].
    rewrite count_cons. pose proof (count_nonneg l'). lra. }
  split.
  - apply Qle_shift_div_l; [exact Hn|lra].
  - apply Qle_shift_div_r; [exact Hn|lra].
Qed.

Lemma ladder_rate_range (b : Q) : In b ladder_rates -> 0.5 <= b <= 8.
Proof.
  cbn. intros H. repeat (destruct H as [<-|H]; [split; discriminate|]). destruct H.
Qed.

(** X7.  Every bitrate logged during a run is a rung of the ladder, so
    the reported average bitrate is 0 when nothing was downloaded and lies
    between the lowest rung 0.5 and the highest rung 8 otherwise. *)
Theorem average_bitrate_on_ladder (now clock_start : Q) (order : list string)
    (swipes : gmap string Q) (streams : list (string * list Event))
    (evs : list SysEvent) :
  let st := sys_state (sys_run evs (initial_system now clock_start order swipes streams)) in
  Forall (fun p => In p.2 ladder_rates) (bitrate_timeseries st) /\
  match bitrate_timeseries st with
  | [] => avg_bitrate_selected st = 0.0
  | _ :: _ => 0.5 <= avg_bitrate_selected st <= 8
  end.
Proof.
  cbn zeta.
  destruct (run_state_invariant bitrates_on_ladder) with
    (evs := evs) (sys := initial_system now clock_start order swipes streams)
    as [Hall _].
  - intros delta sim_time st H. unfold bitrates_on_ladder.
    destruct (tick_locked_frame delta sim_time st) as (_&_&_&_&_&_&->&_). exact H.
  - intros sid dur br sz rc el t1 t2 t3 t4 st (Hbr & _) Hr H.
    unfold update_state. destruct (0 <? rc)%Z; [|exact H].
    unfold bitrates_on_ladder.
    cbn [record_transfer update_bandwidth_estimate bitrate_timeseries].
    apply Forall_app. split; [exact H|]. constructor; [exact Hbr|constructor].
  - apply initial_workers_ok.
  - constructor.
  - split; [exact Hall|]. unfold bitrates_on_ladder in Hall.
    unfold avg_bitrate_selected.
    destruct (bitrate_timeseries _) as [|p ts] eqn:E; [reflexivity|].
    rewrite <- (length_map snd (p :: ts)).
    apply (mean_between (map snd (p :: ts))); [discriminate|].
    apply Forall_forall. intros b Hb.
    apply list_elem_of_fmap in Hb as (q & -> & Hq).
    apply ladder_rate_range. rewrite Forall_forall in Hall. now apply Hall.
Qed.

(** ** The per-stream counters move together *)

Lemma update_state_counters (sid base : string) (duration bitrate : Q)
    (size_bytes recvd : Z) (elapsed t1 t2 t3 t4 : Q) (st : State) :
  (0 < recvd)%Z -> counters_aligned st ->
  counters_aligned (update_state sid base duration bitrate size_bytes recvd
                      elapsed t1 t2 t3 t4 st).
Proof.
  intros Hr (Hf & Hl & Hpos & Htot). unfold update_state.
  destruct (Z.ltb_spec 0 recvd); [|lia].
  unfold counters_aligned.
  cbn [record_transfer update_bandwidth_estimate per_stream_bytes
         per_stream_first_ts per_stream_last_ts total_bytes].
  rewrite !dom_insert_L. split; [|split; [|split]].
  - destruct (per_stream_first_ts st !! sid) as [t|] eqn:E.
    + assert (sid ∈ dom (per_stream_first_ts st)) as Hin
        by (apply elem_of_dom; eauto).
      rewrite Hf in Hin |- *.
      symmetry. apply subseteq_union_1_L. now apply singleton_subseteq_l.
    + rewrite dom_insert_L, Hf. reflexivity.
  - now rewrite Hl.
  - apply map_Forall_insert_2; [|exact Hpos].
    destruct (per_stream_bytes st !! sid) as [b|] eqn:E; cbn; [|lia].
    specialize (Hpos sid b E). cbn in Hpos. lia.
  - lia.
Qed.

(** X8.  In every state of every run the three per-stream maps have the
    same set of keys, every byte counter is positive and the total is not
    negative: the aggregator finds a first and a last timestamp for every
    stream it iterates over, no timestamp is kept for a stream without a
    byte counter, and a stream that received nothing has no entry at
    all. *)
Theorem per_stream_maps_share_keys (now clock_start : Q) (order : list string)
    (swipes : gmap string Q) (streams : list (string * list Event))
    (evs : list SysEvent) :
  let st := sys_state (sys_run evs (initial_system now clock_start order swipes streams)) in
  dom (per_stream_first_ts st) = dom (per_stream_bytes st) /\
  dom (per_stream_last_ts st) = dom (per_stream_bytes st) /\
  (0 <= total_bytes st)%Z /\
  forall sid b_count,
    per_stream_bytes st !! sid = Some b_count ->
    (0 < b_count)%Z /\
    is_Some (per_stream_first_ts st !! sid) /\
    is_Some (per_stream_last_ts st !! sid).
Proof.
  cbn zeta.
  destruct (run_state_invariant counters_aligned) with
    (evs := evs) (sys := initial_system now clock_start order swipes streams)
    as [(Hf & Hl & Hpos & Htot) _].
  - intros delta sim_time st H. unfold counters_aligned.
    destruct (tick_locked_frame delta sim_time st)
      as (_&->&_&_&_&_&_&_&_&_&->&->&->). exact H.
  - intros. now apply update_state_counters.
  - apply initial_workers_ok.
  - unfold counters_aligned. cbn. rewrite !dom_empty_L.
    repeat split; [apply map_Forall_empty|lia].
  - split; [exact Hf|]. split; [exact Hl|].
    split; [exact Htot|]. intros sid b Hb. split; [exact (Hpos sid b Hb)|].
    assert (sid ∈ dom (per_stream_bytes
              (sys_state (sys_run evs (initial_system now clock_start order swipes streams)))))
      as Hin by (apply elem_of_dom; eauto).
    split; apply elem_of_dom; [rewrite Hf|rewrite Hl]; exact Hin.
Qed.

(** ** Stall time against clock time *)

Lemma update_state_frame (sid base : string) (duration bitrate : Q)
    (size_bytes recvd : Z) (elapsed t1 t2 t3 t4 : Q) (st : State) :
  let st' := update_state sid base duration bitrate size_bytes recvd
               elapsed t1 t2 t3 t4 st in
  start_time st' = start_time st /\
  buffer_timeseries st' = buffer_timeseries st /\
  stream_order st' = stream_order st /\
  swipe_map st' = swipe_map st.
Proof.
  cbn zeta. unfold update_state. now destruct (0 <? recvd)%Z.
Qed.

Lemma sys_step_start_time (ev : SysEvent) (sys : System) :
  start_time (sys_state (sys_step ev sys)) = start_time (sys_state sys).
Proof.
  destruct ev as [now|i env].
  - cbn [sys_step playback_tick sys_state].
    now destruct (tick_locked_frame (now - sys_last_real_time sys)
                    (now - start_time (sys_state sys)) (sys_state sys)) as [-> _].
  - rewrite sys_step_worker_state.
    destruct (sys_workers sys !! i) as [w|]; [|reflexivity].
    destruct (worker_step_state env (sys_state sys) w)
      as [->|(chunk & rest & br & sz & rc & _ & _ & ->)]; [reflexivity|].
    apply update_state_frame.
Qed.

Lemma stall_within_clock (evs : list SysEvent) (sys : System) (c : Q) :
  clock_monotone (sys_last_real_time sys) evs ->
  0 <= stall_time (sys_state sys) <= sys_last_real_time sys - c ->
  let sys' := sys_run evs sys in
  0 <= stall_time (sys_state sys') <= sys_last_real_time sys' - c /\
  start_time (sys_state sys') = start_time (sys_state sys).
Proof.
  revert sys. induction evs as [|ev evs IH]; intros sys Hclock Hst; [now split|].
  apply clock_after_step in Hclock as [Hev Hrest].
  cbn zeta. change (sys_run (ev :: evs) sys) with (sys_run evs (sys_step ev sys)).
  destruct (IH (sys_step ev sys) Hrest) as [Hs Ht].
  - pose proof (sys_step_advances ev sys Hev) as [_ Hstall]. cbn zeta in Hstall.
    destruct Hstall as [->|(now & -> & Hle & ->)].
    + destruct ev as [now|i env].
      * cbn in Hev. cbn [sys_step playback_tick sys_last_real_time]. lra.
      * now rewrite sys_step_worker_clock.
    + cbn [sys_step playback_tick sys_last_real_time]. lra.
  - split; [exact Hs|]. now rewrite Ht, sys_step_start_time.
Qed.

Lemma total_duration_lower (end_time : Q) (st : State) :
  0 < total_duration_of end_time st /\
  end_time - start_time st <= total_duration_of end_time st.
Proof.
  unfold total_duration_of. rewrite max2_Qmax. split.
  - apply Qlt_le_trans with (y := 1e-6); [reflexivity|apply Q.le_max_l].
  - apply Q.le_max_r.
Qed.

(** X9.  When the clock readings do not go back, the stall time never
    exceeds the time the playback clock has covered, and the reported
    rebuffering ratio lies between 0 and 1. *)
Theorem rebuffering_ratio_in_unit_interval (now clock_start end_time : Q)
    (order : list string) (swipes : gmap string Q)
    (streams : list (string * list Event)) (evs : list SysEvent) :
  clock_monotone clock_start evs ->
  now <= clock_start ->
  let sys := sys_run evs (initial_system now clock_start order swipes streams) in
  sys_last_real_time sys <= end_time ->
  0 <= stall_time (sys_state sys) <= sys_last_real_time sys - clock_start /\
  0 <= rebuffering_ratio end_time (sys_state sys) <= 1.
Proof.
  intros Hclock Hstart sys Hend.
  destruct (stall_within_clock evs
              (initial_system now clock_start order swipes streams) clock_start)
    as [Hs Ht]; [exact Hclock|cbn; lra|]. fold sys in Hs, Ht. cbn in Ht.
  split; [exact Hs|].
  destruct (total_duration_lower end_time (sys_state sys)) as [Hpos Hlow].
  rewrite Ht in Hlow. unfold rebuffering_ratio. split.
  - apply Qle_shift_div_l; [exact Hpos|lra].
  - apply Qle_shift_div_r; [exact Hpos|lra].
Qed.

(** The run of [stall_events], reported at reading 1: both ticks find the
    active buffer empty, the stall time is 0.3 s and so is the ratio. *)
Lemma rebuffering_ratio_in_unit_interval_witness :
  stall_time (sys_state (sys_run stall_events sample_system)) == 0.3 /\
  rebuffering_ratio 1 (sys_state (sys_run stall_events sample_system)) == 0.3 /\
  0 <= rebuffering_ratio 1 (sys_state (sys_run stall_events sample_system)) <= 1.
Proof.
  split; [reflexivity|]. split; [reflexivity|].
  refine (proj2 (rebuffering_ratio_in_unit_interval 0 0 1
                   ["1"%string; "2"%string]
                   (<["2"%string := 5.0]> (<["1"%string := 0.0]> ∅))
                   [("1_0"%string, [sample_chunk])] stall_events _ _ _)).
  - cbn. repeat split; discriminate.
  - discriminate.
  - discriminate.
Defined.

(** ** The buffer series *)

Lemma tick_locked_series (delta sim_time : Q) (st : State) :
  let st' := tick_locked delta sim_time st in
  buffer_timeseries st'
  = buffer_timeseries st ++ [(sim_time, buffer_of st' (active_base_id st'))].
Proof.
  cbn zeta. unfold tick_locked, drain_or_stall, advance_active.
  destruct (_ <? _)%nat; [destruct (_ !! _); [destruct (Py.geb _ _)|]|];
    destruct (Py.ltb 0 _); reflexivity.
Qed.

Lemma sys_run_series_length (evs : list SysEvent) (sys : System) :
  length (buffer_timeseries (sys_state (sys_run evs sys)))
  = (length (buffer_timeseries (sys_state sys)) + count_ticks evs)%nat.
Proof.
  revert sys. induction evs as [|ev evs IH]; intros sys.
  - cbn. lia.
  - cbn [sys_run fold_left]. rewrite IH. destruct ev as [now|i env].
    + cbn [sys_step playback_tick sys_state]. rewrite tick_locked_series.
      rewrite length_app. unfold count_ticks. cbn. lia.
    + rewrite sys_step_worker_state. unfold count_ticks. cbn [List.filter].
      destruct (sys_workers sys !! i) as [w|]; [|reflexivity].
      destruct (worker_step_state env (sys_state sys) w)
        as [->|(chunk & rest & br & sz & rc & _ & _ & ->)]; [reflexivity|].
      now destruct (update_state_frame (w_full_sid w) (base_id_of (w_full_sid w))
                      (video_duration_sec chunk) br sz rc (env_elapsed env)
                      (env_t_sim env) (env_t_series env) (env_t_first env)
                      (env_t_last env) (sys_state sys)) as (_ & -> & _).
Qed.

(** X10.  The buffer series gets exactly one sample per clock tick and
    none from the workers, and every sample is a non-negative level. *)
Theorem buffer_series_one_sample_per_tick (now clock_start : Q)
    (order : list string) (swipes : gmap string Q)
    (streams : list (string * list Event)) (evs : list SysEvent) :
  let st := sys_state (sys_run evs (initial_system now clock_start order swipes streams)) in
  length (buffer_timeseries st) = count_ticks evs /\
  Forall (fun p => 0 <= p.2) (buffer_timeseries st).
Proof.
  cbn zeta. split; [now rewrite sys_run_series_length|].
  destruct (run_state_invariant samples_nonneg) with
    (evs := evs) (sys := initial_system now clock_start order swipes streams)
    as [[_ H] _]; [| | | |exact H].
  - intros delta sim_time st [Hb Hs].
    pose proof (tick_locked_nonneg delta sim_time st Hb) as Hb'.
    split; [exact Hb'|]. rewrite tick_locked_series.
    apply Forall_app. split; [exact Hs|]. constructor; [apply Hb'|constructor].
  - intros sid dur br sz rc el t1 t2 t3 t4 st Hok Hr [Hb Hs]. split.
    + apply update_state_nonneg; [|exact Hb].
      exact (transfer_duration_positive dur br sz rc Hok Hr).
    + now destruct (update_state_frame sid (base_id_of sid) dur br sz rc el
                      t1 t2 t3 t4 st) as (_ & -> & _).
  - apply initial_workers_ok.
  - split; [apply initial_buffers_nonneg|constructor].
Qed.

(** ** Requests of a worker *)

Lemma worker_step_requests (env : Env) (st : State) (w : Worker) :
  (count_sends (worker_step env st w).2 + requests_left (worker_step env st w).1.2
   <= requests_left w)%nat.
Proof.
  unfold worker_step, requests_left.
  destruct (w_chunks w) as [|chunk rest] eqn:Hc; [cbn; lia|].
  destruct (w_phase w) as [| |br sz rc|br sz rc|] eqn:Hp.
  - destruct (gate_check _ _ _ _); cbn; rewrite ?Hc, ?Hp; cbn; lia.
  - destruct (env_connect_ok env); cbn; rewrite Hc; cbn; lia.
  - destruct (_ <? _)%Z; [|cbn; rewrite Hc; cbn; lia].
    destruct (_ <? _)%Z; [cbn; lia|].
    destruct (env_recv env); cbn; rewrite Hc; cbn; lia.
  - cbn. rewrite Hc. cbn. destruct rest; cbn; lia.
  - cbn. rewrite Hp. lia.
Qed.

Lemma count_sends_app (a b : list Action) :
  count_sends (a ++ b) = (count_sends a + count_sends b)%nat.
Proof. unfold count_sends. now rewrite List.filter_app, length_app. Qed.

Lemma worker_run_requests (envs : list Env) (st : State) (w : Worker) :
  (count_sends (worker_run envs st w).2 + requests_left (worker_run envs st w).1.2
   <= requests_left w)%nat.
Proof.
  revert st w. induction envs as [|env envs IH]; intros st w; [cbn; lia|].
  cbn [worker_run].
  pose proof (worker_step_requests env st w) as Hstep.
  destruct (worker_step env st w) as [[st1 w1] a1]. cbn [fst snd] in Hstep.
  specialize (IH st1 w1).
  destruct (worker_run envs st1 w1) as [[st2 w2] a2]. cbn [fst snd] in IH |- *.
  rewrite count_sends_app. lia.
Qed.

Lemma requests_left_spawn (evs : list Event) (sid : string) (st : State) :
  requests_left (spawn_worker evs sid st) = length (download_chunks evs).
Proof.
  unfold requests_left, spawn_worker, loop_head. cbn.
  now destruct (download_chunks evs).
Qed.

(** X11.  A worker sends at most one request per download chunk of its
    stream: a step never raises the number of requests still possible, and
    over a whole run of the worker the requests number at most the events
    whose action is ["download"]. *)
Theorem one_request_per_download_chunk (events : list Event) (sid : string)
    (st0 : State) (envs : list Env) :
  let w := spawn_worker events sid st0 in
  (count_sends (worker_run envs st0 w).2 <= length (download_chunks events))%nat /\
  (length (download_chunks events) <= length events)%nat /\
  (forall env st w',
      (count_sends (worker_step env st w').2
       + requests_left (worker_step env st w').1.2 <= requests_left w')%nat).
Proof.
  cbn zeta. split; [|split].
  - pose proof (worker_run_requests envs st0 (spawn_worker events sid st0)) as H.
    rewrite requests_left_spawn in H. lia.
  - unfold download_chunks. apply List.filter_length_le.
  - intros. apply worker_step_requests.
Qed.

(** ** The credit of a transfer *)

Lemma received_fraction (size_bytes recvd : Z) :
  (0 < recvd <= size_bytes)%Z ->
  0 < Py.float recvd / Py.float (Z.max 1 size_bytes) <= 1 /\
  (recvd = size_bytes -> Py.float recvd / Py.float (Z.max 1 size_bytes) == 1) /\
  ((recvd < size_bytes)%Z -> Py.float recvd / Py.float (Z.max 1 size_bytes) < 1).
Proof.
  intros [Hr Hs]. unfold Py.float.
  replace (Z.max 1 size_bytes) with size_bytes by lia.
  assert (0 < inject_Z size_bytes) as Hpos
    by (change 0 with (inject_Z 0); rewrite <- Zlt_Qlt; lia).
  assert (0 < inject_Z recvd) as Hrpos
    by (change 0 with (inject_Z 0); rewrite <- Zlt_Qlt; lia).
  split; [split|split].
  - apply Qlt_shift_div_l; [exact Hpos|lra].
  - apply Qle_shift_div_r; [exact Hpos|]. rewrite Qmult_1_l. now rewrite <- Zle_Qle.
  - intros ->. apply Qmult_inv_r. lra.
  - intros Hlt. apply Qlt_shift_div_r; [exact Hpos|].
    rewrite Qmult_1_l. now rewrite <- Zlt_Qlt.
Qed.

(** X12.  A transfer that received between 1 byte and the requested size
    raises the stream's buffer by a positive amount of at most the chunk's
    duration: exactly the duration when all requested bytes arrived, and
    strictly less when some are missing. *)
Theorem transfer_credits_at_most_duration (sid base : string)
    (duration bitrate : Q) (size_bytes recvd : Z)
    (elapsed t1 t2 t3 t4 : Q) (st : State) :
  0 < duration ->
  (0 < recvd <= size_bytes)%Z ->
  let b := buffer_of st base in
  let b' := buffer_of (update_state sid base duration bitrate size_bytes recvd
                         elapsed t1 t2 t3 t4 st) base in
  b < b' /\ b' <= b + duration /\
  (recvd = size_bytes -> b' == b + duration) /\
  ((recvd < size_bytes)%Z -> b' < b + duration).
Proof.
  intros Hd Hr b b'. subst b'. rewrite update_state_buffer.
  destruct (Z.ltb_spec 0 recvd); [|lia]. rewrite decide_True by reflexivity.
  fold b. destruct (received_fraction size_bytes recvd Hr) as ([Hf0 Hf1] & Heq & Hlt).
  set (f := Py.float recvd / Py.float (Z.max 1 size_bytes)) in *.
  split; [nra|]. split; [nra|]. split.
  - intros E. rewrite (Heq E). ring.
  - intros E. specialize (Hlt E). nra.
Qed.

Lemma transfer_credits_at_most_duration_witness :
  buffer_of (update_state "1_0" "1" 2 1 250000 250000 0.5 1 1 1 1 sample_state) "1"
  == buffer_of sample_state "1" + 2.
Proof.
  refine (proj1 (proj2 (proj2 (transfer_credits_at_most_duration "1_0" "1" 2 1
                                 250000 250000 0.5 1 1 1 1 sample_state _ _))) eq_refl).
  - reflexivity.
  - lia.
Defined.

(** ** The server's reply *)

Lemma ceil_step (p d : Z) :
  (0 < p)%Z -> (0 < d)%Z ->
  ((d + p - 1) / p = (d - Z.min p d + p - 1) / p + 1)%Z.
Proof.
  intros Hp Hd. destruct (Z.le_gt_cases p d) as [Hfull|Hlast].
  - replace (Z.min p d) with p by lia.
    replace (d + p - 1)%Z with ((d - p + p - 1) + 1 * p)%Z by lia.
    rewrite Z.div_add by lia. lia.
  - replace (Z.min p d) with d by lia.
    replace (d - d + p - 1)%Z with (p - 1)%Z by lia.
    rewrite (Z.div_small (p - 1)) by lia.
    replace (d + p - 1)%Z with ((d - 1) + 1 * p)%Z by lia.
    rewrite Z.div_add by lia. rewrite Z.div_small by lia. lia.
Qed.

Lemma send_loop_sends (fuel : nat) (ok : nat -> bool) (k : nat) (p n sent : Z) :
  (0 < p)%Z -> (0 <= sent <= n)%Z -> (Z.to_nat (n - sent) <= fuel)%nat ->
  let pieces := fst (send_loop fuel ok k p n sent) in
  let finished := snd (send_loop fuel ok k p n sent) in
  (0 <= total_sent pieces <= n - sent)%Z /\
  Forall (fun x => 0 < x <= p)%Z pieces /\
  (forall j, (j < length pieces)%nat -> ok (k + j)%nat = true) /\
  (finished = true <-> total_sent pieces = (n - sent)%Z) /\
  (finished = false -> ok (k + length pieces)%nat = false) /\
  (Z.of_nat (length pieces) <= (n - sent + p - 1) / p)%Z /\
  (finished = true ->
   Z.of_nat (length pieces) = ((n - sent + p - 1) / p)%Z).
Proof.
  revert k sent. induction fuel as [|fuel IH]; intros k sent Hp Hs Hfuel.
  - assert (sent = n) as -> by lia. cbn [send_loop].
    rewrite Z.ltb_irrefl. cbn.
    replace (n - n + p - 1)%Z with (p - 1)%Z by lia.
    rewrite Z.div_small by lia.
    repeat split; try lia; try constructor; try discriminate; intros; lia.
  - cbn [send_loop]. destruct (Z.ltb_spec sent n) as [Hlt|Hge].
    + set (to_send := Z.min p (n - sent)).
      assert (0 < to_send <= p)%Z as Hto by (unfold to_send; lia).
      assert (0 < (n - sent + p - 1) / p)%Z as Hceil.
      { apply Z.div_str_pos. lia. }
      destruct (ok k) eqn:Hk.
      * specialize (IH (S k) (sent + to_send)%Z Hp).
        destruct IH as (Ht & Hall & Hok & Hfin & Hfail & Hlen & Hlenfin);
          [unfold to_send; lia|unfold to_send; lia|].
        destruct (send_loop fuel ok (S k) p n (sent + to_send)) as [pieces fin].
        cbn [fst snd] in *. cbn [total_sent fold_right length].
        fold (total_sent pieces).
        pose proof (ceil_step p (n - sent) Hp ltac:(lia)) as Hstep.
        fold to_send in Hstep.
        replace (n - (sent + to_send))%Z with (n - sent - to_send)%Z in * by lia.
        split; [lia|]. split; [now constructor|]. split.
        { intros [|j] Hj; [now rewrite Nat.add_0_r|].
          replace (k + S j)%nat with (S k + j)%nat by lia. apply Hok. lia. }
        split; [rewrite Hfin; lia|]. split.
        { intros Hf. replace (k + S (length pieces))%nat with (S k + length pieces)%nat by lia.
          now apply Hfail. }
        rewrite Nat2Z.inj_succ. split; [lia|].
        intros Hf. rewrite (Hlenfin Hf). lia.
      * cbn. rewrite Nat.add_0_r.
        repeat split; intros; try lia; try constructor; try discriminate;
          try assumption.
    + assert (sent = n) as -> by lia. cbn.
      replace (n - n + p - 1)%Z with (p - 1)%Z by lia.
      rewrite Z.div_small by lia.
      repeat split; try lia; try constructor; try discriminate; intros; lia.
Qed.

Lemma send_loop_fuel (extra fuel : nat) (ok : nat -> bool) (k : nat)
    (p n sent : Z) :
  (0 < p)%Z -> (0 <= sent <= n)%Z -> (Z.to_nat (n - sent) <= fuel)%nat ->
  send_loop (fuel + extra) ok k p n sent = send_loop fuel ok k p n sent.
Proof.
  revert k sent. induction fuel as [|fuel IH]; intros k sent Hp Hs Hf.
  - assert (sent = n) as -> by lia. cbn [Nat.add send_loop].
    destruct extra; cbn [send_loop]; rewrite Z.ltb_irrefl; reflexivity.
  - cbn [Nat.add send_loop]. destruct (Z.ltb_spec sent n); [|reflexivity].
    destruct (ok k); [|reflexivity].
    rewrite IH by lia. reflexivity.
Qed.

(** X13.  For a parsed count [n] the server sends nothing when [n] is
    negative or zero.  Otherwise the sends that return hand over slices of
    1 to 1048576 bytes that add up to at most [n] bytes, in at most
    ceil(n / 1048576) sends; the loop ends by its own test exactly when
    the slices add up to [n], and otherwise at the first send that fails.
    When no send fails, exactly [n] bytes go out in ceil(n / 1048576)
    sends.  More iterations change nothing. *)
Theorem server_sends_requested_bytes (sendall_ok : nat -> bool) (n : Z) :
  match server_sends sendall_ok n with
  | None => (n < 0)%Z
  | Some (pieces, finished) =>
      (0 <= n)%Z /\
      (0 <= total_sent pieces <= n)%Z /\
      Forall (fun x => 0 < x <= MAX_PAYLOAD)%Z pieces /\
      (forall j, (j < length pieces)%nat -> sendall_ok j = true) /\
      (finished = true <-> total_sent pieces = n) /\
      (finished = false -> sendall_ok (length pieces) = false) /\
      (Z.of_nat (length pieces) <= (n + MAX_PAYLOAD - 1) / MAX_PAYLOAD)%Z /\
      ((forall j, sendall_ok j = true) ->
       finished = true /\ total_sent pieces = n /\
       Z.of_nat (length pieces) = ((n + MAX_PAYLOAD - 1) / MAX_PAYLOAD)%Z) /\
      forall extra,
        send_loop (Z.to_nat n + extra) sendall_ok 0 (Z.min n MAX_PAYLOAD) n 0
        = (pieces, finished)
  end.
Proof.
  unfold server_sends. destruct (Z.ltb_spec n 0) as [Hneg|Hpos]; [exact Hneg|].
  destruct (send_loop (Z.to_nat n) sendall_ok 0 (Z.min n MAX_PAYLOAD) n 0)
    as [pieces finished] eqn:E.
  split; [exact Hpos|].
  destruct (Z.eq_dec n 0%Z) as [->|Hnz].
  { cbn in E. injection E as <- <-. cbn.
    repeat split; try lia; try constructor; try discriminate; try (intros; lia).
    intros extra. destruct extra; reflexivity. }
  assert (0 < Z.min n MAX_PAYLOAD)%Z as Hp by (unfold MAX_PAYLOAD; lia).
  destruct (send_loop_sends (Z.to_nat n) sendall_ok 0 (Z.min n MAX_PAYLOAD) n 0 Hp)
    as (Ht & Hall & Hok & Hfin & Hfail & Hlen & Hlenfin); [lia|lia|].
  rewrite E in *. cbn [fst snd] in *. rewrite Z.sub_0_r in *.
  assert ((n + Z.min n MAX_PAYLOAD - 1) / Z.min n MAX_PAYLOAD
          = (n + MAX_PAYLOAD - 1) / MAX_PAYLOAD)%Z as Hceil.
  { destruct (Z.le_gt_cases MAX_PAYLOAD n) as [Hbig|Hsmall].
    - now replace (Z.min n MAX_PAYLOAD) with MAX_PAYLOAD by lia.
    - replace (Z.min n MAX_PAYLOAD) with n by lia.
      replace (n + n - 1)%Z with ((n - 1) + 1 * n)%Z by lia.
      rewrite Z.div_add by lia. rewrite Z.div_small by lia.
      replace (n + MAX_PAYLOAD - 1)%Z with ((n - 1) + 1 * MAX_PAYLOAD)%Z by lia.
      rewrite Z.div_add by (unfold MAX_PAYLOAD; lia).
      rewrite Z.div_small by lia. reflexivity. }
  rewrite Hceil in *.
  split; [exact Ht|]. split.
  { eapply Forall_impl; [exact Hall|]. cbn. intros x Hx. lia. }
  split; [exact Hok|]. split; [exact Hfin|]. split; [exact Hfail|].
  split; [exact Hlen|]. split.
  { intros Hall_ok.
    assert (finished = true) as Hf.
    { destruct finished; [reflexivity|].
      specialize (Hfail eq_refl). rewrite Hall_ok in Hfail. discriminate. }
    split; [exact Hf|]. split; [now apply Hfin|now apply Hlenfin]. }
  intros extra. rewrite <- E. apply send_loop_fuel; lia.
Qed.

(** A reply of 2500000 bytes: three slices when every send returns, one
    slice when the second send fails. *)
Example server_sends_sample :
  server_sends (fun _ => true) 2500000
  = Some ([1048576; 1048576; 402848]%Z, true) /\
  server_sends (fun k => (k <? 1)%nat) 2500000 = Some ([1048576]%Z, false).
Proof. split; vm_compute; reflexivity. Qed.

(** ** Positions in the stream order *)

Lemma list_index_first_occurrence_aux (x : string) (l : list string) :
  match list_index x l with
  | Some i => l !! i = Some x /\ forall j, (j < i)%nat -> l !! j <> Some x
  | None => ~ In x l
  end.
Proof.
  induction l as [|y l IH]; cbn [list_index]; [intros []|].
  destruct (String.eqb_spec y x) as [->|Hne].
  - split; [reflexivity|]. intros j Hj. lia.
  - destruct (list_index x l) as [i|]; cbn [option_map].
    + destruct IH as [Hi Hfirst]. split; [exact Hi|].
      intros [|j] Hj; cbn; [congruence|]. apply Hfirst. lia.
    + intros [->|Hin]; [congruence|contradiction].
Qed.

(** X14.  [list_index] is Python's [list.index]: it returns the first
    position that holds the element, and fails exactly when the element
    is not in the list; so a worker's [my_idx] is -1 exactly when its
    base id is not in the stream order. *)
Theorem list_index_first_occurrence (x : string) (l : list string) (st : State) :
  match list_index x l with
  | Some i => l !! i = Some x /\ forall j, (j < i)%nat -> l !! j <> Some x
  | None => ~ In x l
  end /\
  (my_idx_of x st = (-1)%Z <-> ~ In x (stream_order st)).
Proof.
  split; [apply list_index_first_occurrence_aux|].
  unfold my_idx_of.
  pose proof (list_index_first_occurrence_aux x (stream_order st)) as H.
  destruct (list_index x (stream_order st)) as [i|].
  - split; [lia|]. intros Hn. exfalso. apply Hn.
    apply list_elem_of_In, list_elem_of_lookup. exists i. apply H.
  - split; [intros _; exact H|reflexivity].
Qed.

Lemma my_idx_of_member (base : string) (st : State) :
  In base (stream_order st) ->
  exists i, my_idx_of base st = Z.of_nat i /\ stream_order st !! i = Some base.
Proof.
  intros Hin. unfold my_idx_of.
  pose proof (list_index_first_occurrence_aux base (stream_order st)) as H.
  destruct (list_index base (stream_order st)) as [i|]; [|contradiction].
  exists i. split; [reflexivity|apply H].
Qed.

(** ** Base ids *)

Lemma base_id_of_free (s : string) : underscore_free (base_id_of s) = true.
Proof.
  induction s as [|c s IH]; [reflexivity|]. cbn [base_id_of].
  destruct (Ascii.eqb c "_") eqn:E; [reflexivity|].
  cbn [underscore_free]. now rewrite E, IH.
Qed.

Lemma base_id_of_prefix (a b : string) :
  underscore_free a = true ->
  base_id_of (String.append a (String "_" b)) = a /\ base_id_of a = a.
Proof.
  induction a as [|c a IH]; cbn [underscore_free]; intros H; [now split|].
  apply andb_true_iff in H as [Hc Ha]. apply negb_true_iff in Hc.
  destruct (IH Ha) as [H1 H2]. simpl. rewrite Hc.
  split; congruence.
Qed.

(** X15.  The base id of a stream id is its part before the first
    underscore: it holds no underscore, taking it twice changes nothing,
    and for an id written as [base], an underscore and any suffix, with
    no underscore in [base], it gives back [base]. *)
Theorem base_id_round_trip (s a b : string) :
  underscore_free (base_id_of s) = true /\
  base_id_of (base_id_of s) = base_id_of s /\
  (underscore_free a = true ->
   base_id_of (String.append a (String "_" b)) = a /\ base_id_of a = a).
Proof.
  split; [apply base_id_of_free|]. split; [|apply base_id_of_prefix].
  apply (base_id_of_prefix (base_id_of s) EmptyString), base_id_of_free.
Qed.

(** ** The stream order built by [run_client] *)

Lemma order_step_inv (acc : OrderAcc) (s : Stream) :
  order_inv acc ->
  order_inv (order_step acc s) /\
  base_id_of (stream_id s) ∈ acc_order (order_step acc s) /\
  (forall x, x ∈ acc_order acc -> x ∈ acc_order (order_step acc s)) /\
  (forall k v, acc_swipes acc !! k = Some v ->
               acc_swipes (order_step acc s) !! k = Some v) /\
  (base_id_of (stream_id s) ∉ acc_seen acc ->
   acc_swipes (order_step acc s) !! base_id_of (stream_id s)
   = Some (default 0.0 (playback_start_sec s))).
Proof.
  intros (Hnd & Hseen & Hdom). unfold order_step.
  destruct (decide (base_id_of (stream_id s) ∈ acc_seen acc)) as [Hin|Hout].
  - split; [exact (conj Hnd (conj Hseen Hdom))|]. split; [now apply Hseen|].
    split; [auto|]. split; [auto|]. intros H. contradiction.
  - cbn. split; [|split; [|split; [|split]]].
    + split; [|split].
      * apply NoDup_app. split; [exact Hnd|]. split; [|apply NoDup_singleton].
        intros x Hx Hx'. apply list_elem_of_singleton in Hx'. subst x.
        apply Hout. now apply Hseen.
      * intros x. cbn. rewrite elem_of_app, list_elem_of_singleton, elem_of_union,
          elem_of_singleton, Hseen. tauto.
      * cbn. now rewrite dom_insert_L, Hdom.
    + apply elem_of_app. right. now apply list_elem_of_singleton.
    + intros x Hx. apply elem_of_app. now left.
    + intros k v Hk. rewrite lookup_insert_ne; [exact Hk|].
      intros <-. apply Hout. rewrite <- Hdom. apply elem_of_dom. eauto.
    + intros _. apply lookup_insert_eq.
Qed.

Lemma fold_order_inv (streams : list Stream) (acc : OrderAcc) :
  order_inv acc ->
  let acc' := fold_left order_step streams acc in
  order_inv acc' /\
  (forall x, x ∈ acc_order acc -> x ∈ acc_order acc') /\
  (forall s, In s streams -> base_id_of (stream_id s) ∈ acc_order acc') /\
  (forall k v, acc_swipes acc !! k = Some v -> acc_swipes acc' !! k = Some v).
Proof.
  revert acc. induction streams as [|s streams IH]; intros acc Hinv; cbn zeta.
  - cbn. split; [exact Hinv|]. split; [auto|]. split; [intros s []|auto].
  - cbn [fold_left].
    destruct (order_step_inv acc s Hinv) as (Hinv1 & Hs & Hmono & Hkeep & _).
    destruct (IH (order_step acc s) Hinv1) as (Hinv' & Hmono' & Hall & Hkeep').
    split; [exact Hinv'|]. split; [auto|]. split; [|auto].
    intros s' [<-|Hin]; [now apply Hmono'|now apply Hall].
Qed.

Lemma order_inv_empty :
  order_inv {| acc_order := []; acc_swipes := ∅; acc_seen := ∅ |}.
Proof.
  split; [apply NoDup_nil_2|]. split; [|apply dom_empty_L].
  intros x. cbn. rewrite elem_of_nil. set_solver.
Qed.

Lemma first_fragment_sets_swipe (pre post : list Stream) (s : Stream) :
  (forall s', In s' pre -> base_id_of (stream_id s') <> base_id_of (stream_id s)) ->
  acc_swipes (build_order (pre ++ s :: post)) !! base_id_of (stream_id s)
  = Some (default 0.0 (playback_start_sec s)).
Proof.
  intros Hpre. unfold build_order. rewrite fold_left_app. cbn [fold_left].
  set (acc0 := {| acc_order := []; acc_swipes := ∅; acc_seen := ∅ |}).
  set (acc1 := fold_left order_step pre acc0).
  assert (order_inv acc1 /\ forall x, x ∈ acc_order acc1 ->
            exists s', In s' pre /\ base_id_of (stream_id s') = x) as [Hinv1 Hfrom].
  { subst acc1. clear Hpre. induction pre as [|p pre IH] using rev_ind.
    - split; [apply order_inv_empty|]. intros x Hx. cbn in Hx.
      now apply elem_of_nil in Hx.
    - rewrite fold_left_app. cbn [fold_left]. destruct IH as [Hinv Hfrom].
      destruct (order_step_inv _ p Hinv) as (Hinv' & _). split; [exact Hinv'|].
      intros x Hx. unfold order_step in Hx.
      destruct (decide _) as [|Hout].
      + destruct (Hfrom x Hx) as (s' & Hs' & <-). exists s'. split; [|reflexivity].
        apply in_or_app. now left.
      + cbn in Hx. apply elem_of_app in Hx as [Hx|Hx].
        * destruct (Hfrom x Hx) as (s' & Hs' & <-). exists s'. split; [|reflexivity].
          apply in_or_app. now left.
        * apply list_elem_of_singleton in Hx. subst x. exists p. split; [|reflexivity].
          apply in_or_app. right. now left. }
  assert (base_id_of (stream_id s) ∉ acc_seen acc1) as Hfresh.
  { intros Hin. destruct Hinv1 as (_ & Hseen & _). apply Hseen in Hin.
    destruct (Hfrom _ Hin) as (s' & Hs' & Heq). exact (Hpre s' Hs' Heq). }
  destruct (order_step_inv acc1 s Hinv1) as (Hinv2 & _ & _ & _ & Hset).
  destruct (fold_order_inv post (order_step acc1 s) Hinv2) as (_ & _ & _ & Hkeep).
  apply Hkeep, Hset, Hfresh.
Qed.

Lemma fold_order_head (rest : list Stream) (acc : OrderAcc) (x : string) :
  acc_order acc !! 0%nat = Some x ->
  acc_order (fold_left order_step rest acc) !! 0%nat = Some x.
Proof.
  revert acc. induction rest as [|r rest IH]; intros acc Hacc; [exact Hacc|].
  cbn [fold_left]. apply IH. unfold order_step.
  destruct (decide _); [exact Hacc|]. cbn.
  now apply lookup_app_l_Some.
Qed.

(** X16.  The set-up of [run_client] lists every base id once, in the
    order of first appearance, and gives each a start time, the one of
    its first fragment (0 when absent); every worker it starts finds its
    position in that order, so no worker runs with the position -1, and
    the first stream is the active one. *)
Theorem client_setup_positions (now clock_start : Q) (streams : list Stream) :
  let sys := client_system now clock_start streams in
  let st := sys_state sys in
  NoDup (stream_order st) /\
  (forall sid, sid ∈ stream_order st <-> is_Some (swipe_map st !! sid)) /\
  (forall pre s post,
      streams = pre ++ s :: post ->
      (forall s', In s' pre -> base_id_of (stream_id s') <> base_id_of (stream_id s)) ->
      swipe_map st !! base_id_of (stream_id s)
      = Some (default 0.0 (playback_start_sec s))) /\
  Forall (fun w => exists i, w_my_idx w = Z.of_nat i /\
                     stream_order st !! i = Some (base_id_of (w_full_sid w)))
    (sys_workers sys) /\
  match streams with
  | s :: _ => active_base_id st = base_id_of (stream_id s) /\
              stream_order st !! 0%nat = Some (base_id_of (stream_id s))
  | [] => active_base_id st = "0"%string /\ stream_order st = []
  end.
Proof.
  cbn zeta. unfold client_system.
  destruct (fold_order_inv streams _ order_inv_empty)
    as ((Hnd & Hseen & Hdom) & _ & Hall & _).
  fold (build_order streams) in Hnd, Hseen, Hdom, Hall.
  cbn [initial_system sys_state sys_workers initial_state stream_order swipe_map
         active_base_id].
  split; [exact Hnd|]. split; [|split; [|split]].
  - intros sid. rewrite Hseen, <- Hdom. apply elem_of_dom.
  - intros pre s post -> Hpre. now apply first_fragment_sets_swipe.
  - apply Forall_forall. intros w Hw.
    apply list_elem_of_fmap in Hw as (p & -> & Hp).
    apply list_elem_of_fmap in Hp as (s & -> & Hs).
    cbn [spawn_worker w_my_idx w_full_sid fst snd].
    apply my_idx_of_member. cbn [stream_order initial_state].
    apply list_elem_of_In, Hall. now apply list_elem_of_In.
  - destruct streams as [|s rest]; [now split|].
    assert (acc_order (build_order (s :: rest)) !! 0%nat
            = Some (base_id_of (stream_id s))) as H0.
    { unfold build_order. cbn [fold_left]. apply fold_order_head.
      unfold order_step. cbn.
      destruct (decide _) as [Hin|_]; [now apply elem_of_empty in Hin|reflexivity]. }
    split; [|exact H0].
    destruct (acc_order (build_order (s :: rest))) as [|x l]; [discriminate|].
    cbn in H0. congruence.
Qed.

(** ** More on the fairness index *)

Lemma squares_below_square_sum (l : list Q) :
  Forall (fun r => 0 < r) l ->
  0 <= Py.sum l /\ squares_of l <= Py.sum l * Py.sum l.
Proof.
  induction 1 as [|x l Hx _ [IH0 IH]].
  - destruct sums_nil as (-> & -> & _). lra.
  - rewrite sum_cons, squares_cons. split; [lra|]. nra.
Qed.

(** X17.  With n >= 1 surviving streams the fairness index, taken in
    exact arithmetic, is at least 1/n. *)
Theorem fairness_at_least_one_over_n (st : State) :
  surviving_rates st <> [] ->
  1 / count_of (surviving_rates st) <= fairness_index st.
Proof.
  intros Hne. unfold fairness_index.
  pose proof (surviving_rates_positive st) as Hpos.
  set (rates := surviving_rates st) in *.
  destruct (positive_sums rates Hne Hpos) as (Hs & Hq & Hn).
  destruct (le_lt_dec 2 (length rates)) as [Hlen|Hlen].
  - assert (0 < count_of rates * squares_of rates) as Hden by nra.
    rewrite (fairness_of_many rates Hlen Hden).
    destruct (squares_below_square_sum rates Hpos) as [_ Hsq].
    apply Qle_shift_div_l; [exact Hden|].
    assert (1 / count_of rates * (count_of rates * squares_of rates)
            == squares_of rates) as -> by (field; lra).
    exact Hsq.
  - rewrite (fairness_of_few rates Hlen).
    assert (count_of rates == 1) as ->.
    { destruct rates as [|x [|y l]]; [congruence|reflexivity|cbn in Hlen; lia]. }
    discriminate.
Qed.

Lemma fairness_at_least_one_over_n_witness :
  1 / count_of (surviving_rates sample_report_state)
  <= fairness_index sample_report_state.
Proof.
  apply (fairness_at_least_one_over_n sample_report_state).
  vm_compute. discriminate.
Defined.

Lemma scaled_sums (c : Q) (l : list Q) :
  Py.sum (map (Qmult c) l) == c * Py.sum l /\
  squares_of (map (Qmult c) l) == c * c * squares_of l /\
  count_of (map (Qmult c) l) = count_of l.
Proof.
  split; [|split].
  - induction l as [|x l IH]; cbn [map].
    + destruct sums_nil as (-> & _). ring.
    + rewrite !sum_cons, IH. ring.
  - induction l as [|x l IH]; cbn [map].
    + destruct sums_nil as (_ & -> & _). ring.
    + rewrite !squares_cons, IH. ring.
  - unfold count_of. now rewrite length_map.
Qed.

(** X18.  The fairness index, taken in exact arithmetic, does not depend
    on the unit of the rates: multiplying every rate by the same positive
    factor leaves it unchanged. *)
Theorem fairness_scale_invariant (c : Q) (rates : list Q) :
  0 < c ->
  fairness_of (map (Qmult c) rates) == fairness_of rates.
Proof.
  intros Hc. unfold fairness_of. rewrite length_map.
  destruct (2 <=? length rates)%nat; [|reflexivity].
  fold (squares_of (map (Qmult c) rates)) (count_of rates) (squares_of rates).
  destruct (scaled_sums c rates) as (Hs & Hq & _).
  assert (0 < c * c) as Hcc by nra.
  assert (count_of rates * squares_of (map (Qmult c) rates)
          == c * c * (count_of rates * squares_of rates)) as Hden
    by (rewrite Hq; ring).
  rewrite (ltb_proper 0 0 _ _ (Qeq_refl 0) Hden).
  destruct (Py.ltb 0 (count_of rates * squares_of rates)) eqn:E.
  - apply ltb_true in E.
    assert (Py.ltb 0 (c * c * (count_of rates * squares_of rates)) = true) as ->
      by (apply ltb_true; now apply Qmult_lt_0_compat).
    rewrite Hden, Hs.
    assert ((c * Py.sum rates) ^ 2 == c * c * (Py.sum rates ^ 2)) as ->
      by (cbn; ring).
    unfold Qdiv. rewrite Qinv_mult_distr.
    assert (c * c * / (c * c) == 1) as Hinv by (apply Qmult_inv_r; lra).
    apply Qeq_trans with (y := (c * c * / (c * c))
                          * (Py.sum rates ^ 2 * / (count_of rates * squares_of rates)));
      [ring|rewrite Hinv; ring].
  - apply ltb_false in E.
    assert (Py.ltb 0 (c * c * (count_of rates * squares_of rates)) = false) as ->.
    { apply ltb_false.
      assert (0 <= c * c * - (count_of rates * squares_of rates)) as H
        by (apply Qmult_le_0_compat; lra).
      lra. }
    reflexivity.
Qed.

Lemma fairness_scale_invariant_witness :
  fairness_of (map (Qmult 1000) [1; 2]) == fairness_of [1; 2].
Proof. apply (fairness_scale_invariant 1000 [1; 2]). reflexivity. Defined.

(** ** Jitter *)

Lemma sum_nonneg (l : list Q) : Forall (fun x => 0 <= x) l -> 0 <= Py.sum l.
Proof.
  induction 1 as [|x l Hx _ IH].
  - destruct sums_nil as (-> & _). lra.
  - rewrite sum_cons. lra.
Qed.

Lemma sum_zero (l : list Q) : Forall (fun x => x == 0) l -> Py.sum l == 0.
Proof.
  induction 1 as [|x l Hx _ IH].
  - now destruct sums_nil as (-> & _).
  - rewrite sum_cons, Hx, IH. ring.
Qed.

Lemma variance_nonneg (xs : list Q) : 0 <= variance_of xs.
Proof.
  unfold variance_of. fold (count_of xs).
  set (mean := Py.sum xs / count_of xs).
  assert (0 <= Py.sum (map (fun x => (x - mean) ^ 2) xs)) as Hsum.
  { apply sum_nonneg, Forall_forall. intros y Hy.
    apply list_elem_of_fmap in Hy as (x & -> & _).
    assert ((x - mean) ^ 2 == (x - mean) * (x - mean)) as -> by (cbn; ring).
    apply square_nonneg. }
  pose proof (count_nonneg xs) as Hn.
  destruct (Qeq_dec (count_of xs) 0) as [Hz|Hnz].
  - unfold Qdiv. rewrite Hz. unfold Qinv. cbn. lra.
  - apply Qle_shift_div_l; lra.
Qed.

Lemma variance_of_equal (xs : list Q) (c : Q) :
  xs <> [] -> Forall (fun x => x == c) xs -> variance_of xs == 0.
Proof.
  intros Hne Hall. unfold variance_of. fold (count_of xs).
  destruct (equal_rates_sums xs c Hall) as [Hs _].
  assert (0 < count_of xs) as Hn.
  { destruct xs as [|x l]; [congruence|].
    rewrite count_cons. pose proof (count_nonneg l). lra. }
  assert (Py.sum xs / count_of xs == c) as Hmean by (rewrite Hs; field; lra).
  assert (Py.sum (map (fun x => (x - Py.sum xs / count_of xs) ^ 2) xs) == 0) as ->.
  { apply sum_zero, Forall_forall. intros y Hy.
    apply list_elem_of_fmap in Hy as (x & -> & Hx).
    rewrite Forall_forall in Hall. rewrite (Hall x Hx), Hmean. cbn. ring. }
  field. lra.
Qed.

(** X19.  The variance whose square root is reported as jitter is never
    negative, is 0 with fewer than two samples, and is 0 when all
    throughput samples are equal. *)
Theorem jitter_squared_nonneg (st : State) :
  0 <= jitter_squared st /\
  ((length (throughputs st) <= 1)%nat -> jitter_squared st = 0.0) /\
  (forall c, Forall (fun x => x == c) (throughputs st) -> jitter_squared st == 0).
Proof.
  unfold jitter_squared.
  destruct (Nat.ltb_spec 1 (length (throughputs st))) as [Hlen|Hlen].
  - split; [apply variance_nonneg|]. split; [lia|].
    intros c Hall. apply (variance_of_equal _ c); [|exact Hall].
    intros E. rewrite E in Hlen. cbn in Hlen. lia.
  - split; [discriminate|]. split; [reflexivity|]. intros. reflexivity.
Qed.

(** ** Choice of the server address *)

(** X20.  For a non-empty address list every worker index, negative ones
    included, selects an address of the list, and indices that differ by
    the length of the list select the same one; an empty list selects
    nothing. *)
Theorem server_ip_in_range (server_ips : list string) (idx : Z) :
  server_ips <> [] ->
  exists ip,
    server_ip_of server_ips idx = Some ip /\
    In ip server_ips /\
    server_ip_of server_ips (idx + Z.of_nat (length server_ips)) = Some ip.
Proof.
  intros Hne. unfold server_ip_of.
  destruct server_ips as [|a l] eqn:E; [congruence|]. rewrite <- E in *.
  assert (0 < Z.of_nat (length server_ips))%Z as Hlen by (rewrite E; cbn; lia).
  pose proof (Z.mod_pos_bound idx _ Hlen) as Hb.
  destruct (lookup_lt_is_Some_2 server_ips
              (Z.to_nat (idx mod Z.of_nat (length server_ips)))) as [ip Hip]; [lia|].
  exists ip. split; [exact Hip|]. split.
  - apply list_elem_of_In, list_elem_of_lookup. eauto.
  - replace (idx + Z.of_nat (length server_ips))%Z
      with (idx + 1 * Z.of_nat (length server_ips))%Z by lia.
    rewrite Z.mod_add by lia. exact Hip.
Qed.

Lemma server_ip_in_range_witness :
  exists ip, server_ip_of ["10.0.0.2"%string; "10.0.0.3"%string] (-1) = Some ip.
Proof.
  destruct (server_ip_in_range ["10.0.0.2"%string; "10.0.0.3"%string] (-1))
    as (ip & Hip & _); [discriminate|].
  now exists ip.
Defined.

(** ** The ABR decision follows the estimate *)

Lemma highest_rung_monotone (ladder : list Q) (floor t1 t2 r1 r2 : Q) :
  (forall b, In b ladder -> floor <= b) ->
  t1 <= t2 ->
  highest_rung_in ladder floor t1 r1 ->
  highest_rung_in ladder floor t2 r2 ->
  r1 <= r2.
Proof.
  intros Hfloor Ht [[Hall1 ->]|(Hin1 & Hle1 & Hmax1)] [[Hall2 ->]|(Hin2 & Hle2 & Hmax2)].
  - apply Qle_refl.
  - now apply Hfloor.
  - specialize (Hall2 r1 Hin1). lra.
  - apply Hmax2; [exact Hin1|lra].
Qed.

Lemma select_rung_monotone (t1 t2 : Q) :
  t1 <= t2 ->
  select_rung BITRATE_LADDER t1 lowest_rung <= select_rung BITRATE_LADDER t2 lowest_rung.
Proof.
  intros Ht.
  apply (highest_rung_monotone ladder_rates lowest_rung t1 t2);
    [|exact Ht|apply select_rung_ladder|apply select_rung_ladder].
  intros b Hb. destruct (ladder_rate_range b Hb) as [H _].
  unfold lowest_rung. cbn. exact H.
Qed.

(** X21.  The ABR decision never goes down when the estimate goes up: for
    two states with the same buffers and the same active stream, the one
    with the larger estimate gets the same rung or a higher one. *)
Theorem abr_monotone_in_estimate (st1 st2 : State) (is_active : bool)
    (base_id : string) :
  buffers st1 = buffers st2 ->
  active_base_id st1 = active_base_id st2 ->
  app_bandwidth_est st1 <= app_bandwidth_est st2 ->
  get_abr_decision st1 is_active base_id <= get_abr_decision st2 is_active base_id.
Proof.
  intros Hb Ha He. unfold get_abr_decision, buffer_of. rewrite Hb, Ha.
  destruct is_active.
  - destruct (Py.ltb _ 5.0); apply select_rung_monotone; lra.
  - destruct (Py.ltb _ PANIC_THRESHOLD); [apply Qle_refl|].
    apply select_rung_monotone; lra.
Qed.

Lemma abr_monotone_in_estimate_witness :
  get_abr_decision (update_bandwidth_estimate sample_state 4) true "1"
  <= get_abr_decision sample_state true "1".
Proof.
  apply (abr_monotone_in_estimate (update_bandwidth_estimate sample_state 4)
           sample_state true "1"); [reflexivity|reflexivity|discriminate].
Defined.

(** X22.  For a non-negative estimate a stream is never given a higher
    rung in the background than it would get as the active stream in the
    same state. *)
Theorem background_never_above_active (st : State) (base_id : string) :
  0 <= app_bandwidth_est st ->
  get_abr_decision st false base_id <= get_abr_decision st true base_id.
Proof.
  intros He.
  destruct (abr_decision_on_ladder st true base_id) as [_ Hfloor].
  unfold get_abr_decision in *.
  destruct (Py.ltb (buffer_of st (active_base_id st)) PANIC_THRESHOLD);
    [exact Hfloor|].
  destruct (Py.ltb _ 5.0); apply select_rung_monotone; lra.
Qed.

Lemma background_never_above_active_witness :
  get_abr_decision sample_state false "2" <= get_abr_decision sample_state true "2".
Proof.
  apply (background_never_above_active sample_state "2"). discriminate.
Defined.

(** ** What a worker holds during a transfer *)

(** X23.  In every run, a worker that is receiving or about to update
    holds a bitrate of the ladder; its received count is never negative,
    and once positive it stays below the requested size plus one read of
    [CHUNK_SIZE] bytes, the requested size being positive. *)
Theorem transfer_in_progress_is_bounded (now clock_start : Q)
    (order : list string) (swipes : gmap string Q)
    (streams : list (string * list Event)) (evs : list SysEvent) :
  let sys := sys_run evs (initial_system now clock_start order swipes streams) in
  forall i w chunk rest bitrate size_bytes recvd,
    sys_workers sys !! i = Some w ->
    w_chunks w = chunk :: rest ->
    w_phase w = PRecv bitrate size_bytes recvd \/
    w_phase w = PUpdate bitrate size_bytes recvd ->
    In bitrate ladder_rates /\
    (0 <= recvd)%Z /\
    ((0 < recvd)%Z -> (0 < size_bytes)%Z /\ (recvd < size_bytes + CHUNK_SIZE)%Z).
Proof.
  cbn zeta. intros i w chunk rest br sz rc Hw Hc Hp.
  destruct (run_state_invariant (fun _ => True)) with
    (evs := evs) (sys := initial_system now clock_start order swipes streams)
    as [_ Hall]; auto using initial_workers_ok.
  pose proof (Forall_lookup_1 _ _ _ _ Hall Hw) as Hok.
  unfold worker_ok in Hok. rewrite Hc in Hok.
  destruct Hp as [Hp|Hp]; rewrite Hp in Hok;
    destruct Hok as (Hb & _ & Hr & Hbound); auto.
Qed.

(** ** The recorded stall time *)

Lemma update_state_last_stall (sid base : string) (duration bitrate : Q)
    (size_bytes recvd : Z) (elapsed t1 t2 t3 t4 : Q) (st : State) :
  last_stall_time st <= stall_time st ->
  let st' := update_state sid base duration bitrate size_bytes recvd
               elapsed t1 t2 t3 t4 st in
  last_stall_time st' <= stall_time st' /\
  ((0 < recvd)%Z -> last_stall_time st' == stall_time st').
Proof.
  intros H. cbn zeta. unfold update_state.
  destruct (Z.ltb_spec 0 recvd) as [Hr|Hr]; [|split; [exact H|lia]].
  cbn [record_transfer update_bandwidth_estimate last_stall_time stall_time].
  case_ltb; (split; [|intros _]); lra.
Qed.

Lemma sys_run_last_stall (evs : list SysEvent) (sys : System) :
  clock_monotone (sys_last_real_time sys) evs ->
  last_stall_time (sys_state sys) <= stall_time (sys_state sys) ->
  last_stall_time (sys_state (sys_run evs sys))
  <= stall_time (sys_state (sys_run evs sys)).
Proof.
  revert sys. induction evs as [|ev evs IH]; intros sys Hclock H; [exact H|].
  apply clock_after_step in Hclock as [Hev Hrest].
  change (sys_run (ev :: evs) sys) with (sys_run evs (sys_step ev sys)).
  apply IH; [exact Hrest|].
  destruct ev as [now|i env].
  - pose proof (sys_step_advances _ sys Hev) as Hstep.
    apply step_advances_le in Hstep as [_ Hle].
    cbn [sys_step playback_tick sys_state] in Hle |- *.
    destruct (tick_locked_frame (now - sys_last_real_time sys)
                (now - start_time (sys_state sys)) (sys_state sys))
      as (_&_&_&_&_&_&_&_&_&->&_). lra.
  - rewrite sys_step_worker_state.
    destruct (sys_workers sys !! i) as [w|]; [|exact H].
    destruct (worker_step_state env (sys_state sys) w)
      as [->|(chunk & rest & br & sz & rc & _ & _ & ->)]; [exact H|].
    now apply update_state_last_stall.
Qed.

(** X24.  When the clock readings do not go back, the stall time recorded
    by the estimator never exceeds the current stall time, and right after
    an update that received bytes the two are equal: the stall cap of the
    next update applies exactly when the clock has added stall in
    between. *)
Theorem recorded_stall_follows_stall (now clock_start : Q)
    (order : list string) (swipes : gmap string Q)
    (streams : list (string * list Event)) (evs : list SysEvent) :
  clock_monotone clock_start evs ->
  let sys := sys_run evs (initial_system now clock_start order swipes streams) in
  last_stall_time (sys_state sys) <= stall_time (sys_state sys) /\
  forall i env w chunk rest bitrate size_bytes recvd,
    sys_workers sys !! i = Some w ->
    w_chunks w = chunk :: rest ->
    w_phase w = PUpdate bitrate size_bytes recvd ->
    (0 < recvd)%Z ->
    let st' := sys_state (sys_step (EvWorker i env) sys) in
    last_stall_time st' == stall_time st'.
Proof.
  intros Hclock sys.
  assert (last_stall_time (sys_state sys) <= stall_time (sys_state sys)) as Hle.
  { apply sys_run_last_stall; [exact Hclock|]. cbn. lra. }
  split; [exact Hle|].
  intros i env w chunk rest br sz rc Hw Hc Hp Hr. cbn zeta.
  rewrite (sys_step_update i env sys w chunk rest br sz rc Hw Hc Hp).
  now apply update_state_last_stall.
Qed.

(** The run of [stall_then_transfer_events]: before the update the
    recorded stall time is 0 and the stall time 0.2 s; the update sees the
    stall, caps the estimate (which the clamp then sets to 0.1) and records
    0.2 s. *)
Lemma recorded_stall_follows_stall_witness :
  let sys := sys_run stall_then_transfer_events sample_system in
  let st' := sys_state (sys_step (EvWorker 0 sample_env) sys) in
  last_stall_time (sys_state sys) == 0 /\
  stall_time (sys_state sys) == 0.2 /\
  last_stall_time (sys_state sys) <= stall_time (sys_state sys) /\
  stall_time st' == 0.2 /\
  app_bandwidth_est st' == 0.1 /\
  last_stall_time st' == stall_time st'.
Proof.
  cbn zeta.
  assert (clock_monotone 0 stall_then_transfer_events) as Hclock
    by (cbn; split; [discriminate|exact I]).
  pose proof (recorded_stall_follows_stall 0 0 ["1"%string; "2"%string]
                (<["2"%string := 5.0]> (<["1"%string := 0.0]> ∅))
                [("1_0"%string, [sample_chunk])] stall_then_transfer_events
                Hclock) as [Hle Hupd].
  split; [reflexivity|]. split; [reflexivity|]. split; [exact Hle|].
  split; [reflexivity|]. split; [reflexivity|].
  exact (Hupd 0%nat sample_env
           (with_phase sample_worker (PUpdate 1.0 250000 4096))
           sample_chunk [] 1.0 250000%Z 4096%Z
           eq_refl eq_refl eq_refl eq_refl).
Defined.

(** The sample worker after gate, decision and one read: it holds the
    1.0 Mbps rung, a request for 250000 bytes and 4096 bytes received. *)
Lemma transfer_in_progress_is_bounded_witness :
  sys_workers (sys_run (take 3 sample_events) sample_system) !! 0%nat
  = Some (with_phase sample_worker (PRecv 1.0 250000 4096)) /\
  In 1.0 ladder_rates /\ (0 <= 4096)%Z /\
  (0 < 250000)%Z /\ (4096 < 250000 + CHUNK_SIZE)%Z.
Proof.
  destruct (transfer_in_progress_is_bounded 0 0 ["1"%string; "2"%string]
              (<["2"%string := 5.0]> (<["1"%string := 0.0]> ∅))
              [("1_0"%string, [sample_chunk])] (take 3 sample_events) 0%nat
              (with_phase sample_worker (PRecv 1.0 250000 4096))
              sample_chunk [] 1.0 250000%Z 4096%Z
              eq_refl eq_refl (or_introl eq_refl)) as (Hb & Hr & Hbound).
  split; [reflexivity|]. split; [exact Hb|]. split; [exact Hr|].
  apply Hbound. reflexivity.
Defined.
